(** * MU0: a two-pass assembler and a fetch-execute emulator (mu0.c)

    A shallow embedding of [mu0.c].  The C functions become Rocq functions
    with the same names; the files they read and write, the console and
    the emulated memory are passed explicitly.  Diagnostics written to
    [stderr] and the [verbose] traces are not part of the model. *)

From Stdlib Require Import ZArith String Ascii List Bool Lia.
From stdpp Require Import base list.
Import ListNotations.

Local Open Scope string_scope.
Local Open Scope Z_scope.

(** ** The C data model

    The program is modelled for an LP64 target with two's complement
    integers and a signed plain [char] (gcc on x86-64): [int] and
    [unsigned int] have 32 bits, [long] has 64.  Conversions that C leaves
    implementation-defined wrap around, as gcc defines them. *)
Module C.

Definition INT_MAX : Z := 2 ^ 31 - 1.
Definition INT_MIN : Z := - 2 ^ 31.
Definition LONG_MAX : Z := 2 ^ 63 - 1.
Definition LONG_MIN : Z := - 2 ^ 63.

(** Value of a mathematical integer converted to [unsigned int]. *)
Definition to_unsigned (v : Z) : Z := v mod 2 ^ 32.

(** Value of a mathematical integer converted to [unsigned long]. *)
Definition to_ulong (v : Z) : Z := v mod 2 ^ 64.

(** Value of a mathematical integer converted to [int]. *)
Definition to_int (v : Z) : Z := (v + 2 ^ 31) mod 2 ^ 32 - 2 ^ 31.

Definition in_int (v : Z) : bool := (INT_MIN <=? v) && (v <=? INT_MAX).

Definition code (c : ascii) : Z := Z.of_N (N_of_ascii c).

(** [(int) c] for a plain [char] [c]. *)
Definition int_of_char (c : ascii) : Z :=
  if code c <? 128 then code c else code c - 256.

(** The byte written by [printf("%c", v)]: [v] converted to
    [unsigned char]. *)
Definition char_of_int (v : Z) : ascii := ascii_of_N (Z.to_N (v mod 256)).

(** [isspace] in the C locale. *)
Definition isspace (c : ascii) : bool :=
  (code c =? 32) || ((9 <=? code c) && (code c <=? 13)).

(** A [char] buffer seen as a C string: it ends at the first NUL. *)
Fixpoint c_str (buf : string) : string :=
  match buf with
  | EmptyString => EmptyString
  | String c rest => if code c =? 0 then EmptyString else String c (c_str rest)
  end.

(** [*s]: the first character of a C string, NUL when it is empty. *)
Definition deref (s : string) : ascii :=
  match s with
  | EmptyString => zero
  | String c _ => c
  end.

(** [s + n]. *)
Fixpoint advance (n : nat) (s : string) : string :=
  match n, s with
  | S n', String _ rest => advance n' rest
  | _, _ => s
  end.

Fixpoint skip_space (s : string) : string :=
  match s with
  | String c rest => if isspace c then skip_space rest else s
  | EmptyString => EmptyString
  end.

Fixpoint take_word (s : string) : string :=
  match s with
  | String c rest => if isspace c then EmptyString else String c (take_word rest)
  | EmptyString => EmptyString
  end.

(** [sscanf(s, "%s", buf)]: the content of [buf] afterwards.  Leading
    white space is skipped and the next run of non-space characters is
    stored; when the input holds no such run nothing is converted and
    [buf] keeps what it held before the call. *)
Definition sscanf_s (s : string) (buf : string) : string :=
  match skip_space s with
  | EmptyString => buf
  | rest => take_word rest
  end.

(** [strncmp(a, b, n) == 0]. *)
Fixpoint strncmp_eq (a b : string) (n : nat) {struct n} : bool :=
  match n with
  | O => true
  | S n' =>
      match a, b with
      | EmptyString, EmptyString => true
      | String x a', String y b' => Ascii.eqb x y && strncmp_eq a' b' n'
      | _, _ => false
      end
  end.

(** [strcmp(a, b) == 0]. *)
Definition strcmp_eq (a b : string) : bool := String.eqb a b.

(** Value of a digit or letter in a numeral, as [strtol] reads it. *)
Definition digit_val (c : ascii) : option Z :=
  let n := code c in
  if (48 <=? n) && (n <=? 57) then Some (n - 48)
  else if (97 <=? n) && (n <=? 122) then Some (n - 87)
  else if (65 <=? n) && (n <=? 90) then Some (n - 55)
  else None.

Definition is_digit (base : Z) (c : ascii) : bool :=
  match digit_val c with
  | Some d => d <? base
  | None => false
  end.

(** The longest run of digits of [base] at the head of [s], read as a
    numeral; 0 when there is none. *)
Fixpoint digits (base acc : Z) (s : string) : Z :=
  match s with
  | String c rest =>
      match digit_val c with
      | Some d => if d <? base then digits base (acc * base + d) rest else acc
      | None => acc
      end
  | EmptyString => acc
  end.

(** What follows that run of digits. *)
Fixpoint skip_digits (base : Z) (s : string) : string :=
  match s with
  | String c rest => if is_digit base c then skip_digits base rest else s
  | EmptyString => EmptyString
  end.

Definition is_x (c : ascii) : bool := (code c =? 120) || (code c =? 88).

(** The magnitude read after the sign, with the base chosen from the
    prefix: [0x] or [0X] before a hexadecimal digit gives base 16, any
    other leading [0] base 8, anything else base 10. *)
Definition magnitude (s : string) : Z :=
  match s with
  | String z (String x (String h rest)) =>
      if (code z =? 48) && is_x x && is_digit 16 h then digits 16 0 (String h rest)
      else if code z =? 48 then digits 8 0 s
      else digits 10 0 s
  | String z _ => if code z =? 48 then digits 8 0 s else digits 10 0 s
  | EmptyString => 0
  end.

(** [strtol(s, NULL, 0)]: white space, an optional sign, then the
    numeral; a value out of the range of [long] is clamped. *)
Definition strtol (s : string) : Z :=
  match skip_space s with
  | String c rest =>
      if code c =? 45 then Z.max LONG_MIN (- magnitude rest)
      else if code c =? 43 then Z.min LONG_MAX (magnitude rest)
      else Z.min LONG_MAX (magnitude (String c rest))
  | EmptyString => 0
  end.

Definition hex_char (d : Z) : ascii :=
  if d <? 10 then ascii_of_N (Z.to_N (48 + d)) else ascii_of_N (Z.to_N (87 + d)).

Fixpoint hex_loop (fuel : nat) (n : Z) (acc : string) : string :=
  match fuel with
  | O => acc
  | S fuel' =>
      let acc' := String (hex_char (n mod 16)) acc in
      if n / 16 =? 0 then acc' else hex_loop fuel' (n / 16) acc'
  end.

(** Lower-case hexadecimal numeral of [n], for [0 <= n < 2^64]. *)
Definition hex (n : Z) : string := hex_loop 16 n EmptyString.

Fixpoint zeros (k : nat) (s : string) : string :=
  match k with
  | O => s
  | S k' => String "0"%char (zeros k' s)
  end.

(** Zero padding on the left up to the minimum field width. *)
Definition pad (width : nat) (s : string) : string :=
  zeros (width - String.length s)%nat s.

(** [printf("%0<width>x", v)] for an [int] or [unsigned int] [v]. *)
Definition fmt_x (width : nat) (v : Z) : string := pad width (hex (to_unsigned v)).

(** [printf("%0<width>lx", v)] for a [long] [v]. *)
Definition fmt_lx (width : nat) (v : Z) : string := pad width (hex (to_ulong v)).

(** Whether the text starts with [0x] or [0X]. *)
Definition has_0x (s : string) : bool :=
  match s with
  | String z (String x _) => (code z =? 48) && is_x x
  | _ => false
  end.

Definition ULONG_MAX : Z := 2 ^ 64 - 1.

(** What [strtoul] returns for a numeral of magnitude [v]: [ULONG_MAX]
    when [v] is out of range, else [v], negated as an [unsigned long]
    after a minus sign. *)
Definition strtoul_value (neg : bool) (v : Z) : Z :=
  if ULONG_MAX <? v then ULONG_MAX
  else if neg then (- v) mod 2 ^ 64
  else v.

(** [fscanf(f, "%x", &u)] on the unread text [s] of [f], as the C library
    of the target (glibc) does it: white space is skipped, then an
    optional sign is read, then [0x] or [0X] if the text goes on with it
    (the [0] counts as a digit read, the [x] is read and dropped), then
    the longest run of hexadecimal digits.  The digits read are converted
    as [strtoul] does and the result is stored into the [unsigned int].
    The result is the value stored and the text left unread, or [None]
    when no digit is read (end of file or matching failure). *)
Definition fscanf_x (s : string) : option (Z * string) :=
  let s1 := skip_space s in
  let '(neg, s2) :=
    match s1 with
    | String c rest =>
        if code c =? 45 then (true, rest)
        else if code c =? 43 then (false, rest)
        else (false, s1)
    | EmptyString => (false, s1)
    end in
  let s3 := if has_0x s2 then advance 2 s2 else s2 in
  if has_0x s2 || is_digit 16 (deref s3) then
    Some (to_unsigned (strtoul_value neg (digits 16 0 s3)), skip_digits 16 s3)
  else None.

End C.

Import C.

(** ** Outcomes of a call

    A C function that touches a state of type [S] either returns, ends
    the process through [exit], or runs into behaviour that C leaves
    undefined.  [Exit] keeps the state reached when [exit] is called. *)
Inductive outcome (S A : Type) : Type :=
| Ret (a : A) (s : S)
| Exit (status : Z) (s : S)
| Undefined.

Arguments Ret {S A} a s.
Arguments Exit {S A} status s.
Arguments Undefined {S A}.

Definition M (S A : Type) : Type := S -> outcome S A.

Definition ret {S A : Type} (a : A) : M S A := fun s => Ret a s.

Definition bind {S A B : Type} (m : M S A) (k : A -> M S B) : M S B :=
  fun s =>
    match m s with
    | Ret a s' => k a s'
    | Exit status s' => Exit status s'
    | Undefined => Undefined
    end.

Definition undefined {S A : Type} : M S A := fun _ => Undefined.

Definition exit {S A : Type} (status : Z) : M S A := fun s => Exit status s.

Declare Scope c_scope.
Delimit Scope c_scope with c.
Notation "x <- m ;; k" := (bind m (fun x => k))
  (at level 100, m at next level, right associativity) : c_scope.
Notation "m ;;; k" := (bind m (fun _ => k))
  (at level 100, right associativity) : c_scope.

(** ** Assembler *)

Definition LINE_SIZE : nat := 90.
Definition MAX_LABEL_SIZE : nat := 90.
Definition IO_ADDRESS : Z := 4095.

Definition LABEL_C : ascii := ":"%char.
Definition NUM_LITERAL_C : ascii := "#"%char.
Definition CHAR_LITERAL_C : ascii := "$"%char.
Definition COMMENT_C : ascii := ";"%char.

(** [enum opcode_t]. *)
Definition LDA : Z := 0.
Definition STO : Z := 1.
Definition ADD : Z := 2.
Definition SUB : Z := 3.
Definition JMP : Z := 4.
Definition JGE : Z := 5.
Definition JNE : Z := 6.
Definition STP : Z := 7.

Definition opcode_str : list string :=
  ["LDA"; "STO"; "ADD"; "SUB"; "JMP"; "JGE"; "JNE"; "STP"].

(** Labels stored in a linked list. *)
Inductive label_table_t : Type :=
| NULL
| node (label : string) (address : Z) (next : label_table_t).

Definition add_label (table : label_table_t) (label : string) (address : Z)
  : label_table_t :=
  node label address table.

(** Returns -1 if not found. *)
Fixpoint get_address (table : label_table_t) (label : string) : Z :=
  match table with
  | NULL => -1
  | node l a next => if strcmp_eq label l then a else get_address next label
  end.

(** The characters [fgets] stores when the buffer has room for [n] more:
    it stops after a newline, at the end of the file or when the room is
    used up.  The second component is the text left unread. *)
Fixpoint fgets_chars (n : nat) (s : string) : string * string :=
  match n, s with
  | S n', String c rest =>
      if code c =? 10 then (String c EmptyString, rest)
      else let '(line, rest') := fgets_chars n' rest in (String c line, rest')
  | _, _ => (EmptyString, s)
  end.

(** [fgets(line, size, fin)] on the unread text of [fin]; [None] is the
    [NULL] returned at the end of the file. *)
Definition fgets (size : nat) (fin : string) : option (string * string) :=
  match fin with
  | EmptyString => None
  | _ => Some (fgets_chars (size - 1) fin)
  end.

(** The lines that the loop [while (fgets(line, LINE_SIZE, fin) != NULL)]
    sees, each as the C string held by [line]. *)
Fixpoint lines_upto (fuel : nat) (fin : string) : list string :=
  match fuel with
  | O => []
  | S fuel' =>
      match fgets LINE_SIZE fin with
      | None => []
      | Some (line, rest) => c_str line :: lines_upto fuel' rest
      end
  end.

Definition file_lines (fin : string) : list string :=
  lines_upto (String.length fin) fin.

(** The locals of [generate_label_table] that live across iterations:
    the list built so far, the buffer [label] and the counter [addr]. *)
Record pass1_t : Type := {
  p1_table : label_table_t;
  p1_label : string;
  p1_addr : Z
}.

(** One iteration of the loop of [generate_label_table]. *)
Definition label_step (st : pass1_t) (line : string) : pass1_t :=
  if Ascii.eqb (deref line) LABEL_C then
    let label := sscanf_s (advance 1 line) (p1_label st) in
    {| p1_table := add_label (p1_table st) label (p1_addr st);
       p1_label := label;
       p1_addr := p1_addr st |}
  else if negb (isspace (deref line)) && negb (Ascii.eqb (deref line) COMMENT_C) then
    {| p1_table := p1_table st; p1_label := p1_label st; p1_addr := p1_addr st + 1 |}
  else st.

(** The first pass.  [label0] is what the buffer [label], which the code
    does not initialise, holds on entry. *)
Definition first_pass (label0 : string) (fin : string) : pass1_t :=
  fold_left label_step (file_lines fin)
    {| p1_table := NULL; p1_label := label0; p1_addr := 0 |}.

(** First pass of the file to resolve all the labels. *)
Definition generate_label_table (label0 : string) (fin : string) : label_table_t :=
  p1_table (first_pass label0 fin).

(** The output file: the lines written so far, each by one [fprintf]
    whose format ends in a newline, which is left out here. *)
Definition fout_t : Type := list string.

Definition fprintf_line (text : string) : M fout_t unit :=
  fun fout => Ret tt (fout ++ [text])%list.

(** The text of the output file. *)
Definition file_text (fout : fout_t) : string :=
  fold_right (fun l acc => l ++ String (ascii_of_N 10) acc)%string EmptyString fout.

Local Open Scope c_scope.

(** The body of [process_opcode] once [opcode_str[i]] has matched.
    [addr_s0] is what the buffer [addr_s], which the code does not
    initialise, holds on entry. *)
Definition encode_operand (addr_s0 : string) (i : Z) (line : string)
    (table : label_table_t) : M fout_t bool :=
  let addr_s := sscanf_s (advance 3 line) addr_s0 in
  addr <- (if Ascii.eqb (deref addr_s) LABEL_C then
             let addr := get_address table (advance 1 addr_s) in
             if addr <? 0 then exit 1 else ret addr
           else ret (to_int (strtol addr_s)));;
  fprintf_line (fmt_x 1 i ++ fmt_x 3 addr)%string;;;
  ret true.

(** The loop of [process_opcode] from index [i] on, [names] being the
    entries of [opcode_str] from there. *)
Fixpoint process_opcode_from (addr_s0 : string) (i : Z) (names : list string)
    (line : string) (table : label_table_t) : M fout_t bool :=
  match names with
  | [] => ret false
  | name :: names' =>
      if strncmp_eq line name 3 then encode_operand addr_s0 i line table
      else process_opcode_from addr_s0 (i + 1) names' line table
  end.

(** Returns if the line was successfully parsed. *)
Definition process_opcode (addr_s0 : string) (line : string) (table : label_table_t)
  : M fout_t bool :=
  process_opcode_from addr_s0 0 opcode_str line table.

(** One iteration of the loop of [assemble]; the result is [line_ok]. *)
Definition assemble_line (addr_s0 : string) (table : label_table_t) (line : string)
  : M fout_t bool :=
  if Ascii.eqb (deref line) LABEL_C || Ascii.eqb (deref line) COMMENT_C
     || isspace (deref line) then
    ret true
  else if Ascii.eqb (deref line) NUM_LITERAL_C then
    fprintf_line (fmt_lx 4 (strtol (advance 1 line)));;;
    ret true
  else if Ascii.eqb (deref line) CHAR_LITERAL_C then
    fprintf_line (fmt_x 4 (int_of_char (deref (advance 1 line))));;;
    ret true
  else
    process_opcode addr_s0 line table.

(** The loop of [assemble], from the line number [k] on.  The buffer
    [addr_s] of [process_opcode] is not initialised: what it holds when
    the function is entered is whatever lies on the stack, often what an
    earlier call has stored there.  [addr_s k] is what it holds, as a C
    string, when [process_opcode] is entered for line number [k]. *)
Fixpoint assemble_lines (addr_s : nat -> string) (k : nat) (table : label_table_t)
    (lines : list string) : M fout_t unit :=
  match lines with
  | [] => ret tt
  | line :: rest =>
      assemble_line (addr_s k) table line;;;
      assemble_lines addr_s (S k) table rest
  end.

(** [assemble(fin, fout, verbose)] on a source file with text [fin] and an
    output file opened empty. *)
Definition assemble (addr_s : nat -> string) (label0 : string) (fin : string)
  : outcome fout_t unit :=
  let table := generate_label_table label0 fin in
  assemble_lines addr_s 0 table (file_lines fin) [].

(** ** Emulator *)

Inductive state_t : Type := FETCH | EXECUTE.

(** [memory_t]: [size] is an [unsigned int], [data] the array of
    [unsigned int] cells that [read_machine_code] allocates. *)
Record memory_t : Type := {
  size : Z;
  data : list Z
}.

(** The loop of [mem_size]: counts the numbers that [fscanf] reads. *)
Fixpoint mem_size_loop (fuel : nat) (fin : string) (count : Z) : Z :=
  match fuel with
  | O => count
  | S fuel' =>
      match fscanf_x fin with
      | Some (_, rest) => mem_size_loop fuel' rest (count + 1)
      | None => count
      end
  end.

Definition mem_size (fin : string) : Z :=
  mem_size_loop (String.length fin) fin 0.

(** The loop of [read_machine_code] that fills the [n] cells. *)
Fixpoint read_cells (n : nat) (fin : string) : list Z :=
  match n with
  | O => []
  | S n' =>
      match fscanf_x fin with
      | Some (v, rest) => v :: read_cells n' rest
      | None => []
      end
  end.

(** One instruction per line, nothing else in file, addresses as hex.
    Both allocations are taken to succeed. *)
Definition read_machine_code (fin : string) : memory_t :=
  let n := mem_size fin in
  {| size := to_unsigned n; data := read_cells (Z.to_nat n) fin |}.

(** What the emulator works on: the memory and the two console streams
    (the text not yet read from [stdin], the text written to [stdout]). *)
Record world : Type := {
  mem : memory_t;
  stdin : string;
  stdout : string
}.

(** [mem->data[address]]; [None] when the index is outside the array. *)
Definition cell (m : memory_t) (address : Z) : option Z :=
  if address <? 0 then None else data m !! Z.to_nat address.

(** [get(mem, address)].  At the end of the input [scanf] stores nothing
    and the value returned is that of an uninitialised [char]. *)
Definition get (address : Z) : M world Z :=
  fun w =>
    if address =? IO_ADDRESS then
      match stdin w with
      | EmptyString => Undefined
      | String c rest =>
          Ret (int_of_char c) {| mem := mem w; stdin := rest; stdout := stdout w |}
      end
    else if to_unsigned address >? size (mem w) then
      Exit 139 w
    else
      match cell (mem w) address with
      | Some x => Ret (to_int x) w
      | None => Undefined
      end.

(** [set(mem, address, value)]. *)
Definition set (address : Z) (value : Z) : M world unit :=
  fun w =>
    if address =? IO_ADDRESS then
      Ret tt {| mem := mem w; stdin := stdin w;
                stdout := (stdout w ++ String (char_of_int value) EmptyString)%string |}
    else if to_unsigned address >? size (mem w) then
      Exit 139 w
    else
      match cell (mem w) address with
      | Some _ =>
          Ret tt {| mem := {| size := size (mem w);
                              data := <[Z.to_nat address := to_unsigned value]> (data (mem w)) |};
                    stdin := stdin w; stdout := stdout w |}
      | None => Undefined
      end.

(** [get_opcode(x)]: [x >> 12], returned as an [enum opcode_t], which
    the compiler represents as an [unsigned int]. *)
Definition get_opcode (x : Z) : Z := to_unsigned (Z.shiftr x 12).

Definition get_operand (x : Z) : Z := Z.land x 4095.

(** The locals of [emulate]. *)
Record cpu_t : Type := {
  PC : Z;
  ACC : Z;
  IR : Z;
  state : state_t;
  done : bool;
  steps : Z
}.

Definition with_PC (r : cpu_t) (v : Z) : cpu_t :=
  {| PC := v; ACC := ACC r; IR := IR r; state := state r; done := done r; steps := steps r |}.
Definition with_ACC (r : cpu_t) (v : Z) : cpu_t :=
  {| PC := PC r; ACC := v; IR := IR r; state := state r; done := done r; steps := steps r |}.
Definition with_IR (r : cpu_t) (v : Z) : cpu_t :=
  {| PC := PC r; ACC := ACC r; IR := v; state := state r; done := done r; steps := steps r |}.
Definition with_state (r : cpu_t) (v : state_t) : cpu_t :=
  {| PC := PC r; ACC := ACC r; IR := IR r; state := v; done := done r; steps := steps r |}.
Definition with_done (r : cpu_t) (v : bool) : cpu_t :=
  {| PC := PC r; ACC := ACC r; IR := IR r; state := state r; done := v; steps := steps r |}.
Definition with_steps (r : cpu_t) (v : Z) : cpu_t :=
  {| PC := PC r; ACC := ACC r; IR := IR r; state := state r; done := done r; steps := v |}.

(** Arithmetic on [int]: a result outside the range of [int] is
    undefined behaviour. *)
Definition int_result {S : Type} (v : Z) : M S Z :=
  if in_int v then ret v else undefined.

(** [IR = get(mem, PC++)]. *)
Definition fetch (r : cpu_t) : M world cpu_t :=
  pc <- int_result (PC r + 1);;
  x <- get (PC r);;
  ret (with_IR (with_PC r pc) x).

(** The [switch] on the opcode of [IR]; no case matches an opcode above
    7, which a negative [IR] has too, and the locals are then left as
    they are. *)
Definition execute (r : cpu_t) : M world cpu_t :=
  let op := get_opcode (IR r) in
  if op =? LDA then
    x <- get (get_operand (IR r));;
    ret (with_state (with_ACC r x) FETCH)
  else if op =? STO then
    set (get_operand (IR r)) (ACC r);;;
    ret (with_state r FETCH)
  else if op =? ADD then
    x <- get (get_operand (IR r));;
    acc <- int_result (ACC r + x);;
    ret (with_state (with_ACC r acc) FETCH)
  else if op =? SUB then
    x <- get (get_operand (IR r));;
    acc <- int_result (ACC r - x);;
    ret (with_state (with_ACC r acc) FETCH)
  else if op =? JMP then
    fetch (with_PC r (get_operand (IR r)))
  else if op =? JGE then
    if ACC r >=? 0 then fetch (with_PC r (get_operand (IR r)))
    else ret (with_state r FETCH)
  else if op =? JNE then
    if negb (ACC r =? 0) then fetch (with_PC r (get_operand (IR r)))
    else ret (with_state r FETCH)
  else if op =? STP then
    ret (with_done r true)
  else
    ret r.

(** The body of the loop of [emulate]. *)
Definition cycle (r : cpu_t) : M world cpu_t :=
  n <- int_result (steps r + 1);;
  let r := with_steps r n in
  match state r with
  | FETCH =>
      r' <- fetch r;;
      ret (with_state r' EXECUTE)
  | EXECUTE => execute r
  end.

(** The loop of [emulate].  [None] means that [fuel] iterations did not
    end the loop. *)
Fixpoint emulate_loop (fuel : nat) (limit : Z) (r : cpu_t) (w : world)
  : option (outcome world cpu_t) :=
  if negb (done r) && ((limit <=? 0) || (steps r <? limit)) then
    match fuel with
    | O => None
    | S fuel' =>
        match cycle r w with
        | Ret r' w' => emulate_loop fuel' limit r' w'
        | Exit status w' => Some (Exit status w')
        | Undefined => Some Undefined
        end
    end
  else Some (Ret r w).

Definition reset : cpu_t :=
  {| PC := 0; ACC := 0; IR := 0; state := FETCH; done := false; steps := 0 |}.

(** [emulate(mem, verbose, limit)] with [input] waiting on [stdin]; the
    result holds the locals and the world when the loop ends. *)
Definition emulate (fuel : nat) (m : memory_t) (limit : Z) (input : string)
  : option (outcome world cpu_t) :=
  emulate_loop fuel limit reset {| mem := m; stdin := input; stdout := EmptyString |}.

(** ** Command line *)

Fixpoint is_verbose (argv : list string) : bool :=
  match argv with
  | [] => false
  | arg :: rest => if strcmp_eq arg "-v" then true else is_verbose rest
  end.

(** Returns zero if not specified.  The loop goes over all of [argv]; at
    the first [-l] it returns the number that the next argument parses
    to, and calls [exit(1)] when there is no next argument. *)
Fixpoint step_limit {S : Type} (argv : list string) : M S Z :=
  match argv with
  | [] => ret 0
  | arg :: rest =>
      if strcmp_eq arg "-l" then
        match rest with
        | next :: _ => ret (to_int (strtol next))
        | [] => exit 1
        end
      else step_limit rest
  end.

(** What [main] works on: the files, by name, and the console. *)
Record os_t : Type := {
  files : string -> option string;
  console_in : string;
  console_out : string
}.

(** The file [name] after it has been opened for writing, [text] written
    to it, and the file closed (or flushed by [exit]). *)
Definition write_file (name text : string) (os : os_t) : os_t :=
  {| files := fun n => if String.eqb n name then Some text else files os n;
     console_in := console_in os;
     console_out := console_out os |}.

Definition print (text : string) (os : os_t) : os_t :=
  {| files := files os;
     console_in := console_in os;
     console_out := (console_out os ++ text)%string |}.

(** The console after a run of the emulator that ended in world [w]. *)
Definition after_run (w : world) (os : os_t) : os_t :=
  {| files := files os;
     console_in := stdin w;
     console_out := (console_out os ++ stdout w)%string |}.

(** [main(argc, argv)].  Opening a file that does not exist for reading
    gives [NULL], which the code hands on to [fscanf] or [fgets];
    opening for writing is taken to succeed, and empties the file.
    [addr_s] and [label0] are the contents of the two uninitialised
    buffers of the assembler; [None] means that [fuel] iterations did
    not end the loop of [emulate].  The result of [is_verbose] only
    turns on the traces, which are left out. *)
Definition main (addr_s : nat -> string) (label0 : string) (fuel : nat)
    (argv : list string)
  : os_t -> option (outcome os_t Z) :=
  fun os =>
    if (length argv <? 3)%nat then Some (Exit 1 os)
    else
      match step_limit argv os with
      | Exit status os' => Some (Exit status os')
      | Undefined => Some Undefined
      | Ret limit os =>
          if strcmp_eq (nth 1 argv EmptyString) "emulate" then
            match files os (nth 2 argv EmptyString) with
            | None => Some Undefined
            | Some code =>
                match emulate fuel (read_machine_code code) limit (console_in os) with
                | None => None
                | Some (Ret _ w) => Some (Ret 0 (after_run w os))
                | Some (Exit status w) => Some (Exit status (after_run w os))
                | Some Undefined => Some Undefined
                end
            end
          else if strcmp_eq (nth 1 argv EmptyString) "assemble" then
            if (length argv <? 4)%nat then Some (Exit 1 os)
            else
              match files os (nth 2 argv EmptyString) with
              | None => Some Undefined
              | Some source =>
                  let os' := write_file (nth 3 argv EmptyString) EmptyString os in
                  match files os' (nth 2 argv EmptyString) with
                  | None => Some Undefined
                  | Some fin =>
                      match assemble addr_s label0 fin with
                      | Ret _ fout =>
                          Some (Ret 0 (write_file (nth 3 argv EmptyString)
                                         (file_text fout) os))
                      | Exit status fout =>
                          Some (Exit status (write_file (nth 3 argv EmptyString)
                                               (file_text fout) os))
                      | Undefined => Some Undefined
                      end
                  end
              end
          else
            Some (Ret 0 (print ("Unknown command " ++ nth 1 argv EmptyString
                                ++ String (ascii_of_N 10) EmptyString) os))
      end.

(** * Specification-side definitions *)

(** ** Definitions of labels *)

(** The table after a sequence of definitions, given in the order in
    which [add_label] records them. *)
Definition table_of (defs : list (string * Z)) : label_table_t :=
  fold_left (fun table d => add_label table (fst d) (snd d)) defs NULL.

(** Following the specification: among the definitions of [name] the most
    recent one wins; a name never defined is not found. *)
Definition last_defined (defs : list (string * Z)) (name : string) : option Z :=
  option_map snd (find (fun d => String.eqb name (fst d)) (rev defs)).

(** What a failed lookup is for the caller of [get_address]. *)
Definition address_or_missing (found : option Z) : Z :=
  match found with
  | Some a => a
  | None => -1
  end.

(** The label definitions of a source, in source order, each with the
    value of the address counter where it stands.  [label] is what the
    buffer holds, [addr] the counter, before the first line. *)
Fixpoint definitions (label : string) (addr : Z) (lines : list string)
  : list (string * Z) :=
  match lines with
  | [] => []
  | line :: rest =>
      if Ascii.eqb (deref line) LABEL_C then
        let label' := sscanf_s (advance 1 line) label in
        (label', addr) :: definitions label' addr rest
      else if negb (isspace (deref line)) && negb (Ascii.eqb (deref line) COMMENT_C) then
        definitions label (addr + 1) rest
      else
        definitions label addr rest
  end.

(** ** Lines and address slots *)

Definition is_blank (line : string) : bool := isspace (deref line).
Definition is_comment (line : string) : bool := Ascii.eqb (deref line) COMMENT_C.
Definition is_label (line : string) : bool := Ascii.eqb (deref line) LABEL_C.
Definition is_num_literal (line : string) : bool := Ascii.eqb (deref line) NUM_LITERAL_C.
Definition is_char_literal (line : string) : bool := Ascii.eqb (deref line) CHAR_LITERAL_C.

(** The first three characters of the line are one of the mnemonics. *)
Definition is_mnemonic (line : string) : bool :=
  existsb (fun name => strncmp_eq line name 3) opcode_str.

(** The lines of a valid source program. *)
Definition valid_line (line : string) : bool :=
  is_blank line || is_comment line || is_label line
  || is_num_literal line || is_char_literal line || is_mnemonic line.

(** A line that is neither blank, nor a comment, nor a label. *)
Definition takes_slot (line : string) : bool :=
  negb (is_blank line) && negb (is_comment line) && negb (is_label line).

Definition slots (lines : list string) : nat := length (List.filter takes_slot lines).

(** A line that [assemble] hands over to [process_opcode]. *)
Definition is_instruction (line : string) : bool :=
  takes_slot line && negb (is_num_literal line) && negb (is_char_literal line).

(** The operand of an instruction line is a number, or a label that the
    table knows. *)
Definition operand_resolves (addr_s0 : string) (table : label_table_t) (line : string)
  : bool :=
  let addr_s := sscanf_s (advance 3 line) addr_s0 in
  negb (Ascii.eqb (deref addr_s) LABEL_C) || (0 <=? get_address table (advance 1 addr_s)).

(** The number of words in the output file when [assemble] ends, be it by
    returning or through [exit]. *)
Definition emitted (o : outcome fout_t unit) : nat :=
  match o with
  | Ret _ fout => length fout
  | Exit _ fout => length fout
  | Undefined => 0%nat
  end.

(** What the specification says of a source program: as many words are
    emitted as there are lines taking an address slot, which is also
    where the address counter of the first pass ends. *)
Definition word_count_agrees (addr_s : nat -> string) (label0 fin : string) : Prop :=
  emitted (assemble addr_s label0 fin) = slots (file_lines fin) /\
  p1_addr (first_pass label0 fin) = Z.of_nat (slots (file_lines fin)).

(** The operand token of an instruction line, empty when the line has
    none. *)
Definition operand_token (line : string) : string :=
  sscanf_s (advance 3 line) EmptyString.

(** The instruction line carries an operand token, and the token is a
    number or a label that the table knows. *)
Definition operand_given (table : label_table_t) (line : string) : bool :=
  negb (String.eqb (operand_token line) EmptyString)
  && (negb (Ascii.eqb (deref (operand_token line)) LABEL_C)
      || (0 <=? get_address table (advance 1 (operand_token line)))).

(** The contents of the buffer [addr_s] at each line, with [b] at line
    number [k]. *)
Definition with_buffer (addr_s : nat -> string) (k : nat) (b : string) : nat -> string :=
  fun i => if Nat.eqb i k then b else addr_s i.

(** ** Example programs *)

Definition nl : string := String (ascii_of_N 10) EmptyString.

Definition five_program : string :=
  ("LDA :five" ++ nl ++ "STP" ++ nl ++ ":five" ++ nl ++ "#0005" ++ nl)%string.

(** The same program with an operand on every instruction line. *)
Definition five_program_explicit : string :=
  ("LDA :five" ++ nl ++ "STP 0" ++ nl ++ ":five" ++ nl ++ "#0005" ++ nl)%string.

Definition lda_stp_program : string :=
  ("LDA 1" ++ nl ++ "STP" ++ nl)%string.

Definition twice_program : string :=
  (":loop" ++ nl ++ "LDA 0" ++ nl ++ ":loop" ++ nl ++ "STP" ++ nl)%string.

(** ** Hexadecimal numerals *)

(** A text made of hexadecimal digits only. *)
Fixpoint all_hex (s : string) : bool :=
  match s with
  | EmptyString => true
  | String c rest => is_digit 16 c && all_hex rest
  end.

(** The number that a text of hexadecimal digits denotes. *)
Definition hex_value (s : string) : Z := digits 16 0 s.

(** The operand of an opcode line: the address of the label when the
    token after the mnemonic starts with the label sigil, the number that
    the token parses to otherwise. *)
Definition operand_is (addr_s0 : string) (table : label_table_t) (line : string) (n : Z)
  : Prop :=
  let addr_s := sscanf_s (advance 3 line) addr_s0 in
  if Ascii.eqb (deref addr_s) LABEL_C then get_address table (advance 1 addr_s) = n
  else strtol addr_s = n.

(** What the specification says of an opcode line with mnemonic number [i]
    and operand [n]: the line emitted is a 16-bit word with [i] in the top
    four bits and [n], masked, in the other twelve. *)
Definition emits_masked_operand (addr_s0 : string) (table : label_table_t)
    (line : string) (i n : Z) : Prop :=
  exists text,
    process_opcode addr_s0 line table [] = Ret true [text] /\
    read_machine_code (file_text [text]) =
      {| size := 1; data := [i * 4096 + Z.land n 4095] |}.

(** What the specification says of a numeric literal line: the word
    emitted is the number parsed, masked to 16 bits. *)
Definition emits_masked_literal (addr_s0 : string) (table : label_table_t)
    (line : string) : Prop :=
  exists text,
    assemble_line addr_s0 table line [] = Ret true [text] /\
    read_machine_code (file_text [text]) =
      {| size := 1; data := [Z.land (strtol (advance 1 line)) 65535] |}.

(** ** Memories and jumps *)

(** The memories that [read_machine_code] builds: [size] cells, [size]
    being an [unsigned int]. *)
Definition well_formed (m : memory_t) : Prop :=
  size m = Z.of_nat (length (data m)) /\ size m < 2 ^ 32.

(** The jump with the fetch of its target folded in. *)
Definition jump_and_fetch (r : cpu_t) : M world cpu_t :=
  fetch (with_PC r (get_operand (IR r))).

Definition five_memory : memory_t :=
  {| size := 3; data := [0x0002; 0x7000; 0x0005] |}.

Definition stp_memory : memory_t :=
  {| size := 1; data := [0x7000] |}.

(** The memory loaded from the words 0002, 7002, 0005. *)
Definition five_memory_7002 : memory_t :=
  {| size := 3; data := [0x0002; 0x7002; 0x0005] |}.

Definition five_world : world :=
  {| mem := five_memory; stdin := EmptyString; stdout := EmptyString |}.

(** Locals in the execute phase of [JGE 2] and of [JNE 2]. *)
Definition at_jge (acc : Z) : cpu_t :=
  {| PC := 1; ACC := acc; IR := 0x5002; state := EXECUTE; done := false; steps := 2 |}.

Definition at_jne (acc : Z) : cpu_t :=
  {| PC := 1; ACC := acc; IR := 0x6002; state := EXECUTE; done := false; steps := 2 |}.

(** ** Further notions on sources and output *)

(** The token that follows the sigil of a label line, empty when there
    is none. *)
Definition label_token (line : string) : string :=
  sscanf_s (advance 1 line) EmptyString.

(** A line that takes an address slot and for which no word is written:
    neither a literal nor a line starting with a mnemonic. *)
Definition is_bad (line : string) : bool :=
  is_instruction line && negb (is_mnemonic line).

(** The lines of the output file when [assemble] ends. *)
Definition emitted_lines (o : outcome fout_t unit) : fout_t :=
  match o with
  | Ret _ fout => fout
  | Exit _ fout => fout
  | Undefined => []
  end.

(** A text without NUL characters. *)
Fixpoint no_nul (s : string) : bool :=
  match s with
  | EmptyString => true
  | String c rest => negb (code c =? 0) && no_nul rest
  end.

(** A line as the emulator can load it: at least one character, all of
    them hexadecimal digits. *)
Definition hex_line (text : string) : bool :=
  negb (String.eqb text EmptyString) && all_hex text.

(** What one call of [process_opcode] or one iteration of [assemble] can
    do to the output file: nothing, or add one line of at least four
    hexadecimal digits; [exit] is called with status 1 before anything
    is written for the line. *)
Definition one_line_outcome (fout : fout_t) (o : outcome fout_t bool) (wrote : bool)
  : Prop :=
  match o with
  | Ret ok fout' =>
      if wrote then
        exists text, fout' = (fout ++ [text])%list /\ hex_line text = true /\
                     (4 <= String.length text)%nat
      else fout' = fout
  | Exit status fout' => status = 1 /\ fout' = fout /\ wrote = true
  | Undefined => False
  end.


(** ** Further notions on runs *)

(** The world in which a call has ended, when it has ended in one. *)
Definition final_world {A : Type} (o : outcome world A) : option world :=
  match o with
  | Ret _ w => Some w
  | Exit _ w => Some w
  | Undefined => None
  end.

(** Two memories of the same extent. *)
Definition same_extent (m m' : memory_t) : Prop :=
  size m' = size m /\ length (data m') = length (data m).

(** ** Proof automation *)

(** Closes the conjuncts that say what a call has left unchanged. *)
Ltac frame :=
  repeat match goal with |- _ /\ _ => split end;
  try solve [ reflexivity | assumption | congruence
            | intros; lia
            | intros; split; congruence
            | intros; left; assumption
            | intros; congruence
            | intros; contradiction
            | intros; eauto ].


(** ** Outcomes of a conditional jump *)

(** The branch taken: the word at the operand is read with [get]; when
    that returns, [PC] is one past the operand, [IR] holds the word read,
    and the state is left as it is. *)
Definition branch_taken (r : cpu_t) (w : world) : outcome world cpu_t :=
  match get (get_operand (IR r)) w with
  | Ret x w' =>
      Ret {| PC := get_operand (IR r) + 1; ACC := ACC r; IR := x;
             state := state r; done := done r; steps := steps r |} w'
  | Exit status w' => Exit status w'
  | Undefined => Undefined
  end.

(** The branch not taken: nothing changes but the state, which goes back
    to [FETCH]. *)
Definition branch_not_taken (r : cpu_t) (w : world) : outcome world cpu_t :=
  Ret {| PC := PC r; ACC := ACC r; IR := IR r;
         state := FETCH; done := done r; steps := steps r |} w.

(** The cell that the loader fills from a line of hexadecimal digits: the
    number the digits denote, held at [ULONG_MAX] when it is larger, and
    then reduced to the 32 bits of the cell. *)
Definition loaded_value (text : string) : Z :=
  to_unsigned (Z.min (hex_value text) ULONG_MAX).

(** * Properties *)

(** ** The lines of a file *)

Lemma fgets_chars_length (n : nat) (s line rest : string) :
  fgets_chars n s = (line, rest) ->
  String.length s = (String.length line + String.length rest)%nat.
Proof.
  revert s line rest; induction n as [|n IH]; intros s line rest H.
  - destruct s; inversion H; reflexivity.
  - destruct s as [|c s]; simpl in H.
    + inversion H; reflexivity.
    + destruct (code c =? 10).
      * inversion H; reflexivity.
      * destruct (fgets_chars n s) as [l r] eqn:E.
        inversion H; subst; simpl.
        f_equal; apply IH; assumption.
Qed.

Lemma fgets_chars_progress (n : nat) (c : ascii) (s line rest : string) :
  fgets_chars (S n) (String c s) = (line, rest) ->
  (String.length rest < String.length (String c s))%nat.
Proof.
  intros H.
  pose proof (fgets_chars_length _ _ _ _ H) as L.
  simpl in H.
  destruct (code c =? 10).
  - inversion H; subst; simpl in *; lia.
  - destruct (fgets_chars n s) as [l r]; inversion H; subst; simpl in *; lia.
Qed.

Lemma fgets_shrinks (fin line rest : string) :
  fgets LINE_SIZE fin = Some (line, rest) ->
  (String.length rest < String.length fin)%nat.
Proof.
  unfold fgets, LINE_SIZE.
  destruct fin as [|c s]; [discriminate|].
  intros H; injection H as H.
  exact (fgets_chars_progress 88 c s line rest H).
Qed.

Lemma lines_upto_enough (fuel : nat) (fin : string) :
  (String.length fin <= fuel)%nat ->
  lines_upto fuel fin = file_lines fin.
Proof.
  unfold file_lines.
  remember (String.length fin) as n eqn:Hn.
  revert fuel fin Hn.
  induction n as [n IH] using lt_wf_ind; intros fuel fin Hn Hle.
  destruct fin as [|c s].
  - subst n; destruct fuel; reflexivity.
  - destruct fuel as [|fuel]; [subst n; simpl in Hle; lia|].
    destruct n as [|n]; [discriminate|].
    cbn [lines_upto].
    destruct (fgets LINE_SIZE (String c s)) as [[line rest]|] eqn:E; [|reflexivity].
    pose proof (fgets_shrinks _ _ _ E) as L.
    f_equal.
    rewrite (IH (String.length rest)) by (try reflexivity; lia).
    symmetry; apply (IH (String.length rest)); try reflexivity; lia.
Qed.

(** The fuel of [file_lines] never runs out: the lines are those that
    repeated calls of [fgets] return until the end of the file. *)
Lemma file_lines_unfold (fin : string) :
  file_lines fin =
    match fgets LINE_SIZE fin with
    | None => []
    | Some (line, rest) => c_str line :: file_lines rest
    end.
Proof.
  destruct fin as [|c s]; [reflexivity|].
  unfold file_lines at 1.
  cbn [String.length lines_upto].
  destruct (fgets LINE_SIZE (String c s)) as [[line rest]|] eqn:E; [|reflexivity].
  f_equal; apply lines_upto_enough.
  pose proof (fgets_shrinks _ _ _ E) as L; simpl in L; lia.
Qed.

(** ** The label table *)

Lemma table_of_snoc (defs : list (string * Z)) (l : string) (a : Z) :
  table_of (defs ++ [(l, a)]) = add_label (table_of defs) l a.
Proof. unfold table_of; rewrite fold_left_app; reflexivity. Qed.

Lemma get_address_table_of (defs : list (string * Z)) (name : string) :
  get_address (table_of defs) name = address_or_missing (last_defined defs name).
Proof.
  induction defs as [|[l a] defs IH] using rev_ind; [reflexivity|].
  rewrite table_of_snoc; unfold last_defined.
  rewrite rev_app_distr; simpl.
  unfold strcmp_eq.
  destruct (String.eqb name l); [reflexivity|].
  exact IH.
Qed.

Lemma fold_label_step_table (lines : list string) (st : pass1_t) :
  p1_table (fold_left label_step lines st) =
    fold_left (fun table d => add_label table (fst d) (snd d))
      (definitions (p1_label st) (p1_addr st) lines) (p1_table st).
Proof.
  revert st; induction lines as [|line rest IH]; intros st; [reflexivity|].
  cbn [fold_left definitions].
  rewrite IH; unfold label_step.
  destruct (Ascii.eqb (deref line) LABEL_C); [reflexivity|].
  destruct (negb (isspace (deref line)) && negb (Ascii.eqb (deref line) COMMENT_C));
    reflexivity.
Qed.

(** ** Address slots and emitted words *)

Lemma fold_label_step_addr (lines : list string) (st : pass1_t) :
  p1_addr (fold_left label_step lines st) = p1_addr st + Z.of_nat (slots lines).
Proof.
  revert st; induction lines as [|line rest IH]; intros st.
  - unfold slots; simpl; lia.
  - cbn [fold_left]; rewrite IH.
    unfold slots, label_step; cbn [List.filter].
    unfold takes_slot, is_blank, is_comment, is_label.
    destruct (Ascii.eqb (deref line) LABEL_C), (isspace (deref line)),
      (Ascii.eqb (deref line) COMMENT_C);
      cbn [negb andb length p1_addr]; rewrite ?Nat2Z.inj_succ; lia.
Qed.

Lemma encode_operand_resolved (addr_s0 : string) (i : Z) (line : string)
    (table : label_table_t) (fout : fout_t) :
  operand_resolves addr_s0 table line = true ->
  exists text, encode_operand addr_s0 i line table fout = Ret true (fout ++ [text])%list.
Proof.
  unfold operand_resolves, encode_operand, bind, fprintf_line, ret, exit.
  destruct (Ascii.eqb (deref (sscanf_s (advance 3 line) addr_s0)) LABEL_C);
    cbn [negb orb]; intros H.
  - apply Z.leb_le in H.
    destruct (get_address table (advance 1 (sscanf_s (advance 3 line) addr_s0)) <? 0) eqn:E.
    + apply Z.ltb_lt in E; lia.
    + eexists; reflexivity.
  - eexists; reflexivity.
Qed.

Lemma process_opcode_from_resolved (addr_s0 : string) (names : list string) (i : Z)
    (line : string) (table : label_table_t) (fout : fout_t) :
  existsb (fun name => strncmp_eq line name 3) names = true ->
  operand_resolves addr_s0 table line = true ->
  exists text,
    process_opcode_from addr_s0 i names line table fout = Ret true (fout ++ [text])%list.
Proof.
  revert i; induction names as [|name names IH]; intros i Hm Hr; [discriminate|].
  cbn [existsb process_opcode_from] in Hm |- *.
  destruct (strncmp_eq line name 3).
  - apply encode_operand_resolved; assumption.
  - apply IH; assumption.
Qed.

Lemma assemble_line_valid (addr_s0 : string) (table : label_table_t) (line : string)
    (fout : fout_t) :
  valid_line line = true ->
  (is_instruction line = true -> operand_resolves addr_s0 table line = true) ->
  exists fout',
    assemble_line addr_s0 table line fout = Ret true fout' /\
    length fout' = (length fout + (if takes_slot line then 1 else 0))%nat.
Proof.
  unfold valid_line, is_instruction, takes_slot, assemble_line,
    is_blank, is_comment, is_label, is_num_literal, is_char_literal.
  intros Hv Hr.
  destruct (Ascii.eqb (deref line) LABEL_C) eqn:EL; simpl.
  { destruct (isspace (deref line)), (Ascii.eqb (deref line) COMMENT_C);
      eexists; (split; [reflexivity|simpl; lia]). }
  destruct (Ascii.eqb (deref line) COMMENT_C) eqn:EC; simpl.
  { destruct (isspace (deref line)); eexists; (split; [reflexivity|simpl; lia]). }
  destruct (isspace (deref line)) eqn:ES; simpl.
  { eexists; split; [reflexivity|lia]. }
  destruct (Ascii.eqb (deref line) NUM_LITERAL_C) eqn:EN.
  { unfold bind, fprintf_line, ret.
    eexists; split; [reflexivity|rewrite length_app; reflexivity]. }
  destruct (Ascii.eqb (deref line) CHAR_LITERAL_C) eqn:EH.
  { unfold bind, fprintf_line, ret.
    eexists; split; [reflexivity|rewrite length_app; reflexivity]. }
  simpl in Hv, Hr.
  destruct (process_opcode_from_resolved addr_s0 opcode_str 0 line table fout Hv (Hr eq_refl))
    as [text Ht].
  unfold process_opcode; rewrite Ht.
  eexists; split; [reflexivity|rewrite length_app; reflexivity].
Qed.

(** With an operand token on the line, what the buffer held before the
    call does not matter. *)
Lemma operand_given_resolves (addr_s0 : string) (table : label_table_t) (line : string) :
  operand_given table line = true -> operand_resolves addr_s0 table line = true.
Proof.
  unfold operand_given, operand_resolves, operand_token, sscanf_s.
  destruct (skip_space (advance 3 line)); [discriminate|].
  intros H; apply andb_true_iff in H as [_ H]; exact H.
Qed.

Lemma assemble_lines_valid (addr_s : nat -> string) (table : label_table_t)
    (lines : list string) : forall (k : nat) (fout : fout_t),
  forallb valid_line lines = true ->
  forallb (operand_given table) (List.filter is_instruction lines) = true ->
  exists fout',
    assemble_lines addr_s k table lines fout = Ret tt fout' /\
    length fout' = (length fout + slots lines)%nat.
Proof.
  induction lines as [|line rest IH]; intros k fout Hv Hr.
  - exists fout; split; [reflexivity|unfold slots; simpl; lia].
  - simpl in Hv; apply andb_true_iff in Hv as [Hv1 Hv2].
    assert (Hr1 : is_instruction line = true ->
                  operand_resolves (addr_s k) table line = true).
    { intros Hi; cbn [List.filter] in Hr; rewrite Hi in Hr; simpl in Hr.
      apply andb_true_iff in Hr as [Hr _].
      apply operand_given_resolves; exact Hr. }
    assert (Hr2 : forallb (operand_given table) (List.filter is_instruction rest) = true).
    { cbn [List.filter] in Hr; destruct (is_instruction line); [|exact Hr].
      simpl in Hr; apply andb_true_iff in Hr as [_ Hr]; exact Hr. }
    destruct (assemble_line_valid (addr_s k) table line fout Hv1 Hr1) as [f1 [E1 L1]].
    destruct (IH (S k) f1 Hv2 Hr2) as [f2 [E2 L2]].
    exists f2; split.
    + cbn [assemble_lines]; unfold bind at 1; rewrite E1; exact E2.
    + rewrite L2, L1; unfold slots; cbn [List.filter].
      destruct (takes_slot line); simpl; lia.
Qed.

(** ** Claims on the assembler's passes *)

Lemma last_defined_split (defs1 defs2 : list (string * Z)) (name : string) (a : Z) :
  Forall (fun d => fst d <> name) defs2 ->
  last_defined (defs1 ++ (name, a) :: defs2) name = Some a.
Proof.
  intros H; unfold last_defined.
  rewrite rev_app_distr; cbn [rev]; rewrite <- app_assoc.
  assert (F : forall l, Forall (fun d : string * Z => fst d <> name) l ->
                forall tl, find (fun d => String.eqb name (fst d)) (l ++ tl)
                           = find (fun d => String.eqb name (fst d)) tl).
  { induction 1 as [|d l Hd _ IH]; intros tl; [reflexivity|].
    simpl. destruct (String.eqb_spec name (fst d)) as [E|_]; [congruence|apply IH]. }
  rewrite F.
  - simpl; rewrite String.eqb_refl; reflexivity.
  - apply List.Forall_rev; exact H.
Qed.

(** C6: the table that the first pass builds is the list of the label
    definitions of the source, each put in front of the earlier ones by
    [add_label]; for every sequence of definitions [get_address] returns
    the address of the most recent definition of the name it is asked
    for (and -1 for a name never defined), so that a name defined more
    than once resolves to its last definition. *)
Theorem last_definition_wins (label0 fin name : string) :
  generate_label_table label0 fin = table_of (definitions label0 0 (file_lines fin)) /\
  (forall defs : list (string * Z),
     get_address (table_of defs) name = address_or_missing (last_defined defs name)) /\
  get_address (generate_label_table label0 fin) name =
    address_or_missing (last_defined (definitions label0 0 (file_lines fin)) name).
Proof.
  assert (T : generate_label_table label0 fin
              = table_of (definitions label0 0 (file_lines fin))).
  { unfold generate_label_table, first_pass; rewrite fold_label_step_table; reflexivity. }
  split; [exact T|].
  split; [intros defs; apply get_address_table_of|].
  rewrite T; apply get_address_table_of.
Qed.

Example twice_program_resolves_last :
  definitions "" 0 (file_lines twice_program) = [("loop", 0); ("loop", 1)] /\
  get_address (generate_label_table "" twice_program) "loop" = 1.
Proof. split; reflexivity. Qed.

(** C5, as the specification states it, fails on programs whose lines
    are all valid.  The only line of [LDA :x] takes an address slot, the
    label [x] is defined nowhere, and [assemble] leaves through [exit]
    before any word is written, whatever the buffer holds.  The only line
    of [STP] carries no operand, so the operand is taken from what the
    uninitialised buffer holds, and when that is [:x] the same
    happens. *)
Lemma unresolved_label_breaks_word_count :
  forallb valid_line (file_lines "LDA :x") = true /\
  slots (file_lines "LDA :x") = 1%nat /\
  (forall addr_s, assemble addr_s "" "LDA :x" = Exit 1 []) /\
  ~ word_count_agrees (fun _ => EmptyString) "" "LDA :x" /\
  forallb valid_line (file_lines "STP") = true /\
  slots (file_lines "STP") = 1%nat /\
  assemble (fun _ => ":x") "" "STP" = Exit 1 [] /\
  ~ word_count_agrees (fun _ => ":x") "" "STP".
Proof.
  split; [reflexivity|].
  split; [reflexivity|].
  split; [intros addr_s; reflexivity|].
  split; [intros [H _]; vm_compute in H; discriminate|].
  split; [reflexivity|].
  split; [reflexivity|].
  split; [reflexivity|].
  intros [H _]; vm_compute in H; discriminate.
Qed.

(** C5, amended: for a source program in which every line is valid,
    every instruction line carries an operand token and every label used
    as an operand is defined, [assemble] returns, whatever the
    uninitialised buffer holds at each line, the number of words it has
    emitted is the number of lines that are neither blank, nor comments,
    nor labels, and that number is the final value of the address counter
    of the first pass. *)
Theorem emitted_words_count (addr_s : nat -> string) (label0 fin : string) :
  forallb valid_line (file_lines fin) = true ->
  forallb (operand_given (generate_label_table label0 fin))
    (List.filter is_instruction (file_lines fin)) = true ->
  exists fout,
    assemble addr_s label0 fin = Ret tt fout /\
    length fout = slots (file_lines fin) /\
    word_count_agrees addr_s label0 fin.
Proof.
  intros Hv Hr.
  destruct (assemble_lines_valid addr_s (generate_label_table label0 fin)
              (file_lines fin) 0 [] Hv Hr) as [fout [E L]].
  simpl in L.
  exists fout; unfold word_count_agrees, assemble.
  rewrite E; cbn [emitted].
  repeat split; try exact L.
  unfold first_pass; rewrite fold_label_step_addr; reflexivity.
Qed.

Lemma emitted_words_count_witness :
  exists fout,
    assemble (fun _ => ":five") "" five_program_explicit = Ret tt fout /\
    length fout = slots (file_lines five_program_explicit) /\
    word_count_agrees (fun _ => ":five") "" five_program_explicit.
Proof.
  apply (emitted_words_count (fun _ => ":five") "" five_program_explicit); reflexivity.
Defined.

(** ** Printing and reading hexadecimal numerals *)

Lemma to_unsigned_small (v : Z) : 0 <= v < 2 ^ 32 -> to_unsigned v = v.
Proof. intros H; unfold to_unsigned; apply Z.mod_small; assumption. Qed.

Lemma hex_char_digit (d : Z) :
  0 <= d < 16 -> digit_val (hex_char d) = Some d.
Proof.
  intros H.
  destruct d as [|p|p]; [reflexivity| |lia].
  do 4 (try (destruct p as [p|p|]; try lia)); reflexivity.
Qed.

Lemma hex_char_is_digit (d : Z) : 0 <= d < 16 -> is_digit 16 (hex_char d) = true.
Proof.
  intros H; unfold is_digit; rewrite hex_char_digit by assumption.
  apply Z.ltb_lt; lia.
Qed.

(** A hexadecimal digit is no white space, no sign and no [x]. *)
Lemma digit_is_plain (c : ascii) :
  is_digit 16 c = true ->
  isspace c = false /\ is_x c = false /\ (code c =? 45) = false /\ (code c =? 43) = false.
Proof.
  unfold is_digit, digit_val, isspace, is_x.
  generalize (code c); intros n.
  destruct (Z.leb_spec 48 n), (Z.leb_spec n 57), (Z.leb_spec 97 n), (Z.leb_spec n 122),
    (Z.leb_spec 65 n), (Z.leb_spec n 90); cbn [andb]; try discriminate;
    intros Hd; apply Z.ltb_lt in Hd;
    repeat split;
    repeat match goal with
      | |- context [?a =? ?b] => destruct (Z.eqb_spec a b); try lia
      | |- context [?a <=? ?b] => destruct (Z.leb_spec a b); try lia
      end; reflexivity.
Qed.

Lemma digits_shift (s : string) (a : Z) :
  all_hex s = true ->
  digits 16 a s = a * 16 ^ Z.of_nat (String.length s) + hex_value s.
Proof.
  unfold hex_value; revert a; induction s as [|c s IH]; intros a H.
  - simpl; lia.
  - cbn [all_hex] in H; apply andb_true_iff in H as [Hc Hs].
    cbn [digits String.length].
    unfold is_digit in Hc.
    destruct (digit_val c) as [d|]; [|discriminate].
    rewrite Hc, (IH (a * 16 + d)), (IH (0 * 16 + d)) by assumption.
    rewrite Nat2Z.inj_succ, Z.pow_succ_r by lia.
    ring.
Qed.

Lemma digits_app (s t : string) (a : Z) :
  all_hex s = true ->
  digits 16 a (s ++ t) = digits 16 (digits 16 a s) t.
Proof.
  revert a; induction s as [|c s IH]; intros a H; [reflexivity|].
  cbn [all_hex] in H; apply andb_true_iff in H as [Hc Hs].
  cbn [digits append].
  unfold is_digit in Hc.
  destruct (digit_val c) as [d|]; [|discriminate].
  rewrite Hc; apply IH; assumption.
Qed.

Lemma skip_digits_app (s t : string) :
  all_hex s = true -> skip_digits 16 (s ++ t) = skip_digits 16 t.
Proof.
  induction s as [|c s IH]; intros H; [reflexivity|].
  cbn [all_hex] in H; apply andb_true_iff in H as [Hc Hs].
  cbn [skip_digits append]; rewrite Hc; apply IH; assumption.
Qed.

Lemma all_hex_app (s t : string) :
  all_hex (s ++ t) = all_hex s && all_hex t.
Proof.
  induction s as [|c s IH]; [reflexivity|].
  cbn [all_hex append]; rewrite IH, andb_assoc; reflexivity.
Qed.

Lemma length_append (s t : string) :
  String.length (s ++ t) = (String.length s + String.length t)%nat.
Proof. induction s as [|c s IH]; simpl; [|rewrite IH]; reflexivity. Qed.

Lemma hex_value_app (s t : string) :
  all_hex s = true -> all_hex t = true ->
  hex_value (s ++ t) = hex_value s * 16 ^ Z.of_nat (String.length t) + hex_value t.
Proof.
  intros Hs Ht; unfold hex_value at 1.
  rewrite digits_app by assumption.
  rewrite digits_shift by assumption; reflexivity.
Qed.

(** The loop of [hex] writes the digits of [n] in front of [acc]. *)
Lemma hex_loop_spec (fuel : nat) : forall (k : nat) (n : Z) (acc : string),
  (1 <= k <= fuel)%nat -> 0 <= n < 16 ^ Z.of_nat k -> all_hex acc = true ->
  all_hex (hex_loop fuel n acc) = true /\
  hex_value (hex_loop fuel n acc) = n * 16 ^ Z.of_nat (String.length acc) + hex_value acc /\
  (String.length acc < String.length (hex_loop fuel n acc) <= k + String.length acc)%nat.
Proof.
  induction fuel as [|fuel IH]; intros k n acc Hk Hn Hacc; [lia|].
  cbn [hex_loop].
  assert (Hm : 0 <= n mod 16 < 16) by (apply Z.mod_pos_bound; lia).
  assert (Hacc' : all_hex (String (hex_char (n mod 16)) acc) = true).
  { cbn [all_hex]; rewrite hex_char_is_digit, Hacc by assumption; reflexivity. }
  assert (Hv : hex_value (String (hex_char (n mod 16)) acc)
               = n mod 16 * 16 ^ Z.of_nat (String.length acc) + hex_value acc).
  { unfold hex_value at 1; cbn [digits].
    rewrite hex_char_digit by assumption.
    replace (n mod 16 <? 16) with true by (symmetry; apply Z.ltb_lt; lia).
    rewrite digits_shift by assumption; ring. }
  destruct (Z.eqb_spec (n / 16) 0) as [E|E].
  - split; [exact Hacc'|]; split.
    + rewrite Hv; f_equal; f_equal.
      pose proof (Z.div_mod n 16); lia.
    + simpl; lia.
  - assert (Hq : 0 < n / 16) by (pose proof (Z.div_pos n 16); lia).
    destruct k as [|[|k]]; [lia| |].
    + change (16 ^ Z.of_nat 1) with 16 in Hn.
      rewrite Z.div_small in E by lia; congruence.
    + destruct (IH (S k) (n / 16) (String (hex_char (n mod 16)) acc)) as [A [B L]];
        [lia| |exact Hacc'|].
      * split; [lia|].
        apply Z.div_lt_upper_bound; [lia|].
        rewrite <- Z.pow_succ_r, <- Nat2Z.inj_succ by lia; lia.
      * split; [exact A|]; split.
        -- rewrite B, Hv; cbn [String.length].
           rewrite Nat2Z.inj_succ, Z.pow_succ_r by lia.
           pose proof (Z.div_mod n 16); nia.
        -- cbn [String.length] in L; lia.
Qed.

Lemma zeros_spec (k : nat) (s : string) :
  all_hex s = true ->
  all_hex (zeros k s) = true /\ hex_value (zeros k s) = hex_value s /\
  String.length (zeros k s) = (k + String.length s)%nat.
Proof.
  intros Hs; induction k as [|k [A [B L]]]; [repeat split; assumption|].
  cbn [zeros all_hex String.length]; rewrite A, L; repeat split.
  unfold hex_value in *; cbn [digits]; exact B.
Qed.

(** A number below [16 ^ width] is printed with exactly [width] digits,
    and these denote the number. *)
Lemma pad_hex_spec (width : nat) (v : Z) :
  (1 <= width <= 16)%nat -> 0 <= v < 16 ^ Z.of_nat width ->
  all_hex (pad width (hex v)) = true /\
  hex_value (pad width (hex v)) = v /\
  String.length (pad width (hex v)) = width.
Proof.
  intros Hw Hv; unfold pad, hex.
  destruct (hex_loop_spec 16 width v EmptyString) as [A [B L]];
    [lia|assumption|reflexivity|].
  destruct (zeros_spec (width - String.length (hex_loop 16 v EmptyString))
              (hex_loop 16 v EmptyString) A) as [A' [B' L']].
  split; [exact A'|]; split.
  - rewrite B', B.
    change (hex_value EmptyString) with 0.
    change (16 ^ Z.of_nat (String.length EmptyString)) with 1; lia.
  - rewrite L'; cbn [String.length] in L; lia.
Qed.

Lemma has_0x_plain (z x : ascii) (rest : string) :
  is_x x = false -> has_0x (String z (String x rest)) = false.
Proof. intros H; unfold has_0x; rewrite H; apply andb_false_r. Qed.

Lemma hex_value_nonneg (s : string) : 0 <= hex_value s.
Proof.
  unfold hex_value.
  assert (G : forall a, 0 <= a -> 0 <= digits 16 a s).
  { induction s as [|c s IH]; intros a Ha; [exact Ha|].
    cbn [digits]; unfold digit_val.
    destruct ((48 <=? code c) && (code c <=? 57)) eqn:E1.
    - apply andb_true_iff in E1 as [E1 _]; apply Z.leb_le in E1.
      destruct (code c - 48 <? 16); [apply IH; lia|exact Ha].
    - destruct ((97 <=? code c) && (code c <=? 122)) eqn:E2.
      + apply andb_true_iff in E2 as [E2 _]; apply Z.leb_le in E2.
        destruct (code c - 87 <? 16); [apply IH; lia|exact Ha].
      + destruct ((65 <=? code c) && (code c <=? 90)) eqn:E3; [|exact Ha].
        apply andb_true_iff in E3 as [E3 _]; apply Z.leb_le in E3.
        destruct (code c - 55 <? 16); [apply IH; lia|exact Ha]. }
  apply G; lia.
Qed.

Lemma fscanf_x_line (text rest : string) :
  text <> EmptyString -> all_hex text = true ->
  fscanf_x (text ++ String (ascii_of_N 10) rest) =
    Some (to_unsigned (strtoul_value false (hex_value text)),
          String (ascii_of_N 10) rest).
Proof.
  intros Hne Hh.
  destruct text as [|c t]; [congruence|].
  pose proof Hh as Hh'.
  cbn [all_hex] in Hh'; apply andb_true_iff in Hh' as [Hc Ht].
  destruct (digit_is_plain c Hc) as [Hs [_ [Hm Hp]]].
  unfold fscanf_x.
  cbn [append skip_space]; rewrite Hs, Hm, Hp.
  assert (E : has_0x (String c (t ++ String (ascii_of_N 10) rest)) = false).
  { destruct t as [|x t'].
    - apply has_0x_plain; reflexivity.
    - cbn [all_hex] in Ht; apply andb_true_iff in Ht as [Hx _].
      apply has_0x_plain; apply (digit_is_plain x Hx). }
  rewrite E; cbn [deref orb]; rewrite Hc.
  change (String c (t ++ String (ascii_of_N 10) rest))
    with (String c t ++ String (ascii_of_N 10) rest)%string.
  rewrite digits_app, skip_digits_app by assumption.
  reflexivity.
Qed.

Lemma strtoul_value_small (v : Z) : 0 <= v < 2 ^ 32 -> to_unsigned (strtoul_value false v) = v.
Proof.
  intros H; unfold strtoul_value, ULONG_MAX.
  replace (2 ^ 64 - 1 <? v) with false by (symmetry; apply Z.ltb_ge; lia).
  unfold to_unsigned; apply Z.mod_small; exact H.
Qed.

(** A line of hexadecimal digits that the assembler has written is loaded
    by the emulator as one cell holding the number the digits denote. *)
Lemma read_machine_code_line (text : string) :
  text <> EmptyString -> all_hex text = true -> 0 <= hex_value text < 2 ^ 32 ->
  read_machine_code (file_text [text]) = {| size := 1; data := [hex_value text] |}.
Proof.
  intros Hne Hh Hv.
  assert (F : fscanf_x (file_text [text])
              = Some (hex_value text, String (ascii_of_N 10) EmptyString)).
  { unfold file_text; cbn [fold_right]; rewrite fscanf_x_line by assumption.
    rewrite strtoul_value_small by assumption; reflexivity. }
  assert (L : exists k, String.length (file_text [text]) = S (S k)).
  { unfold file_text; cbn [fold_right]; rewrite length_append.
    destruct text as [|c t]; [congruence|].
    exists (String.length t); simpl; lia. }
  destruct L as [k L].
  assert (N : mem_size (file_text [text]) = 1).
  { unfold mem_size; rewrite L; cbn [mem_size_loop]; rewrite F; reflexivity. }
  unfold read_machine_code; rewrite N.
  change (Z.to_nat 1) with 1%nat; cbn [read_cells]; rewrite F; reflexivity.
Qed.

(** ** Claims on the words emitted *)

Lemma strncmp3 (line : string) (a b c : ascii) :
  strncmp_eq line (String a (String b (String c EmptyString))) 3 = true ->
  exists rest, line = String a (String b (String c rest)).
Proof.
  destruct line as [|x [|y [|z rest]]]; simpl; try discriminate;
    try (rewrite andb_false_r; discriminate).
  - intros H; apply andb_true_iff in H as [_ H]; rewrite andb_false_r in H; discriminate.
  - intros H; apply andb_true_iff in H as [Hx H].
    apply andb_true_iff in H as [Hy H]; apply andb_true_iff in H as [Hz _].
    apply Ascii.eqb_eq in Hx, Hy, Hz; subst; eexists; reflexivity.
Qed.

(** The mnemonics differ, so the loop of [process_opcode] stops at the
    index of the one that the line starts with. *)
Lemma process_opcode_matched (addr_s0 line : string) (table : label_table_t)
    (i : nat) (name : string) :
  nth_error opcode_str i = Some name ->
  strncmp_eq line name 3 = true ->
  (i < 8)%nat /\
  process_opcode addr_s0 line table = encode_operand addr_s0 (Z.of_nat i) line table.
Proof.
  intros Hi Hm.
  do 8 (destruct i as [|i];
        [injection Hi as <-; apply strncmp3 in Hm as [rest ->];
         split; [lia|reflexivity]|]).
  destruct i; discriminate.
Qed.

Lemma to_int_small (v : Z) : INT_MIN <= v <= INT_MAX -> to_int v = v.
Proof.
  unfold to_int, INT_MIN, INT_MAX; intros H.
  rewrite Z.mod_small by lia; lia.
Qed.

Lemma encode_operand_small (addr_s0 : string) (i : Z) (line : string)
    (table : label_table_t) (fout : fout_t) (n : Z) :
  operand_is addr_s0 table line n -> 0 <= n < 4096 ->
  encode_operand addr_s0 i line table fout
    = Ret true (fout ++ [(fmt_x 1 i ++ fmt_x 3 n)%string])%list.
Proof.
  unfold operand_is, encode_operand, bind, fprintf_line, ret, exit.
  destruct (Ascii.eqb (deref (sscanf_s (advance 3 line) addr_s0)) LABEL_C);
    intros -> Hn.
  - replace (n <? 0) with false by (symmetry; apply Z.ltb_ge; lia); reflexivity.
  - rewrite to_int_small by (unfold INT_MIN, INT_MAX; lia); reflexivity.
Qed.

Lemma decode_word (i n : Z) :
  0 <= i < 2 ^ 32 -> 0 <= n < 4096 ->
  get_opcode (i * 4096 + n) = i /\ get_operand (i * 4096 + n) = n /\ Z.land n 4095 = n.
Proof.
  intros Hi Hn; unfold get_opcode, get_operand.
  rewrite Z.shiftr_div_pow2 by lia.
  change 4095 with (Z.ones 12); rewrite !Z.land_ones by lia.
  change (2 ^ 12) with 4096.
  rewrite Z.div_add_l, Z.div_small, (Z.add_comm (i * 4096)), Z.mod_add,
    Z.mod_small by lia.
  rewrite Z.add_0_r, to_unsigned_small by exact Hi.
  repeat split; lia.
Qed.

Lemma word_text_spec (i n : Z) :
  0 <= i < 16 -> 0 <= n < 4096 ->
  String.length (fmt_x 1 i ++ fmt_x 3 n) = 4%nat /\
  read_machine_code (file_text [(fmt_x 1 i ++ fmt_x 3 n)%string])
    = {| size := 1; data := [i * 4096 + n] |}.
Proof.
  intros Hi Hn; unfold fmt_x, to_unsigned.
  rewrite !Z.mod_small by lia.
  destruct (pad_hex_spec 1 i) as [A1 [V1 L1]]; [lia|simpl; lia|].
  destruct (pad_hex_spec 3 n) as [A3 [V3 L3]]; [lia|simpl; lia|].
  assert (V : hex_value (pad 1 (hex i) ++ pad 3 (hex n)) = i * 4096 + n).
  { rewrite hex_value_app, V1, V3, L3 by assumption; reflexivity. }
  split; [rewrite length_append, L1, L3; reflexivity|].
  rewrite read_machine_code_line, V; [reflexivity| | |rewrite V; lia].
  - intros E; apply (f_equal String.length) in E.
    rewrite length_append, L1, L3 in E; discriminate.
  - rewrite all_hex_app, A1, A3; reflexivity.
Qed.

(** C2, as the specification states it, fails for an operand of 4096 and
    more: the line [LDA 4096] has mnemonic number 0 and an operand that
    parses to 4096, and the text written for it is [01000], which the
    emulator loads as the word 0x1000, not as 0x0000. *)
Lemma operand_4096_not_masked :
  nth_error opcode_str 0 = Some "LDA" /\
  strncmp_eq "LDA 4096" "LDA" 3 = true /\
  operand_is "" NULL "LDA 4096" 4096 /\
  process_opcode "" "LDA 4096" NULL [] = Ret true ["01000"] /\
  read_machine_code (file_text ["01000"]) = {| size := 1; data := [4096] |} /\
  ~ emits_masked_operand "" NULL "LDA 4096" 0 4096.
Proof.
  repeat (split; [reflexivity|]).
  intros [text [H1 H2]].
  vm_compute in H1; injection H1 as <-.
  vm_compute in H2; discriminate.
Qed.

(** C2, amended: for an opcode line that starts with the mnemonic number
    [i] and whose operand token resolves through the label table, or
    parses, to an integer [n] with [0 <= n < 4096], the assembler emits
    one line of four hexadecimal digits, which is the 16-bit word with
    [i] in its top four bits and [n], equal to [n & 0xFFF], in the other
    twelve.  The operand is not masked: the statement says nothing of an
    operand outside that range. *)
Theorem opcode_line_encoding (addr_s0 line : string) (table : label_table_t)
    (fout : fout_t) (i : nat) (name : string) (n : Z) :
  nth_error opcode_str i = Some name ->
  strncmp_eq line name 3 = true ->
  operand_is addr_s0 table line n ->
  0 <= n < 4096 ->
  exists text,
    process_opcode addr_s0 line table fout = Ret true (fout ++ [text])%list /\
    String.length text = 4%nat /\
    read_machine_code (file_text [text])
      = {| size := 1; data := [Z.of_nat i * 4096 + n] |} /\
    get_opcode (Z.of_nat i * 4096 + n) = Z.of_nat i /\
    get_operand (Z.of_nat i * 4096 + n) = Z.land n 4095 /\
    emits_masked_operand addr_s0 table line (Z.of_nat i) n.
Proof.
  intros Hi Hm Ho Hn.
  destruct (process_opcode_matched addr_s0 line table i name Hi Hm) as [Hlt E].
  destruct (word_text_spec (Z.of_nat i) n) as [L R]; [lia|assumption|].
  destruct (decode_word (Z.of_nat i) n) as [D1 [D2 D3]]; [lia|exact Hn|].
  exists (fmt_x 1 (Z.of_nat i) ++ fmt_x 3 n)%string.
  rewrite E, D3.
  split; [apply encode_operand_small; assumption|].
  repeat (split; [assumption|]).
  exists (fmt_x 1 (Z.of_nat i) ++ fmt_x 3 n)%string.
  rewrite E, D3; split; [|assumption].
  apply (encode_operand_small addr_s0 (Z.of_nat i) line table []); assumption.
Qed.

Lemma opcode_line_encoding_witness :
  exists text,
    process_opcode "" "ADD :sum" (node "sum" 291 NULL) [] = Ret true [text] /\
    String.length text = 4%nat /\
    read_machine_code (file_text [text]) = {| size := 1; data := [2 * 4096 + 291] |} /\
    get_opcode (2 * 4096 + 291) = 2 /\
    get_operand (2 * 4096 + 291) = Z.land 291 4095 /\
    emits_masked_operand "" (node "sum" 291 NULL) "ADD :sum" 2 291.
Proof.
  apply (opcode_line_encoding "" "ADD :sum" (node "sum" 291 NULL) [] 2 "ADD" 291);
    [reflexivity|reflexivity|reflexivity|lia].
Defined.

Example strtol_bases :
  strtol "10" = 10 /\ strtol "0x10" = 16 /\ strtol "0X1f" = 31 /\ strtol "010" = 8 /\
  strtol "0005" = 5 /\ strtol " -3" = -3 /\ strtol "" = 0.
Proof. repeat split. Qed.

(** C3, as the specification states it, fails for a literal of 2^16 and
    more: for the line [#65536] the text written is [10000], which the
    emulator loads as 65536 and not as 65536 masked to 16 bits, 0. *)
Lemma literal_65536_not_masked :
  deref "#65536" = NUM_LITERAL_C /\
  strtol (advance 1 "#65536") = 65536 /\
  assemble_line "" NULL "#65536" [] = Ret true ["10000"] /\
  read_machine_code (file_text ["10000"]) = {| size := 1; data := [65536] |} /\
  ~ emits_masked_literal "" NULL "#65536".
Proof.
  repeat (split; [reflexivity|]).
  intros [text [H1 H2]].
  vm_compute in H1; injection H1 as <-.
  vm_compute in H2; discriminate.
Qed.

(** C3, amended: for a numeric literal line the assembler parses what
    follows the sigil as [strtol] with base 0 does (decimal, or
    hexadecimal after [0x], or octal after [0]) and, when the value [v]
    parsed satisfies [0 <= v < 2^16], emits one line of four hexadecimal
    digits which is the 16-bit word [v].  The value is not masked: the
    statement says nothing of a value outside that range. *)
Theorem num_literal_encoding (addr_s0 line : string) (table : label_table_t)
    (fout : fout_t) :
  deref line = NUM_LITERAL_C ->
  0 <= strtol (advance 1 line) < 65536 ->
  exists text,
    assemble_line addr_s0 table line fout = Ret true (fout ++ [text])%list /\
    String.length text = 4%nat /\
    read_machine_code (file_text [text])
      = {| size := 1; data := [strtol (advance 1 line)] |} /\
    Z.land (strtol (advance 1 line)) 65535 = strtol (advance 1 line) /\
    emits_masked_literal addr_s0 table line.
Proof.
  intros Hc Hv.
  set (v := strtol (advance 1 line)) in *.
  assert (E : forall f, assemble_line addr_s0 table line f
                        = Ret true (f ++ [fmt_lx 4 v])%list).
  { intros f; unfold assemble_line; rewrite Hc; reflexivity. }
  destruct (pad_hex_spec 4 v) as [A [V L]]; [lia|simpl; lia|].
  assert (T : fmt_lx 4 v = pad 4 (hex v)).
  { unfold fmt_lx, to_ulong; rewrite Z.mod_small by lia; reflexivity. }
  assert (R : read_machine_code (file_text [fmt_lx 4 v]) = {| size := 1; data := [v] |}).
  { rewrite T, read_machine_code_line, V; [reflexivity| |assumption|rewrite V; lia].
    intros N; rewrite N in L; discriminate. }
  assert (K : Z.land v 65535 = v).
  { change 65535 with (Z.ones 16); rewrite Z.land_ones by lia.
    apply Z.mod_small; simpl; lia. }
  exists (fmt_lx 4 v).
  split; [apply E|].
  split; [rewrite T; exact L|].
  split; [exact R|].
  split; [exact K|].
  unfold emits_masked_literal; fold v.
  exists (fmt_lx 4 v); rewrite K; split; [apply E|exact R].
Qed.

Lemma num_literal_encoding_witness :
  exists text,
    assemble_line "" NULL "#0x1F" [] = Ret true [text] /\
    String.length text = 4%nat /\
    read_machine_code (file_text [text]) = {| size := 1; data := [31] |} /\
    Z.land 31 65535 = 31 /\
    emits_masked_literal "" NULL "#0x1F".
Proof.
  apply (num_literal_encoding "" "#0x1F" NULL []); [reflexivity|vm_compute; split; [discriminate|reflexivity]].
Defined.

(** ** The loader *)

Lemma skip_space_length (s : string) :
  (String.length (skip_space s) <= String.length s)%nat.
Proof.
  induction s as [|c s IH]; [reflexivity|].
  cbn [skip_space]; destruct (isspace c); cbn [String.length]; lia.
Qed.

Lemma skip_digits_length (base : Z) (s : string) :
  (String.length (skip_digits base s) <= String.length s)%nat.
Proof.
  induction s as [|c s IH]; [reflexivity|].
  cbn [skip_digits]; destruct (is_digit base c); cbn [String.length]; lia.
Qed.

(** A successful [fscanf] reads at least one character. *)
Lemma fscanf_x_shrinks (s rest : string) (v : Z) :
  fscanf_x s = Some (v, rest) -> (String.length rest < String.length s)%nat.
Proof.
  unfold fscanf_x.
  pose proof (skip_space_length s) as L1.
  destruct (match skip_space s with
            | String c rest0 =>
                if code c =? 45 then (true, rest0)
                else if code c =? 43 then (false, rest0)
                else (false, skip_space s)
            | EmptyString => (false, skip_space s)
            end) as [neg s2] eqn:E.
  assert (L2 : (String.length s2 <= String.length s)%nat).
  { destruct (skip_space s) as [|c r]; [inversion E; subst; exact L1|].
    cbn [String.length] in L1.
    destruct (code c =? 45); [inversion E; subst; lia|].
    destruct (code c =? 43); inversion E; subst; cbn [String.length]; lia. }
  destruct (has_0x s2) eqn:X.
  - destruct s2 as [|z [|x s3]]; try discriminate.
    cbn [advance orb]; intros H; inversion H; subst.
    pose proof (skip_digits_length 16 s3); cbn [String.length] in L2; lia.
  - cbn [orb].
    destruct s2 as [|c s3]; [discriminate|].
    cbn [deref]; destruct (is_digit 16 c) eqn:D; [|discriminate].
    intros H; inversion H; subst.
    cbn [skip_digits]; rewrite D.
    pose proof (skip_digits_length 16 s3); cbn [String.length] in L2; lia.
Qed.

(** The fuel of [mem_size] never runs out. *)
Lemma mem_size_loop_enough (fuel : nat) : forall (fin : string) (count : Z),
  (String.length fin <= fuel)%nat ->
  mem_size_loop fuel fin count =
    match fscanf_x fin with
    | Some (_, rest) => mem_size_loop (String.length rest) rest (count + 1)
    | None => count
    end.
Proof.
  induction fuel as [fuel IH] using lt_wf_ind; intros fin count Hle.
  destruct fuel as [|fuel].
  - destruct fin; [reflexivity|simpl in Hle; lia].
  - cbn [mem_size_loop].
    destruct (fscanf_x fin) as [[v rest]|] eqn:E; [|reflexivity].
    pose proof (fscanf_x_shrinks _ _ _ E) as L.
    rewrite (IH fuel) by lia.
    rewrite (IH (String.length rest)) by lia.
    reflexivity.
Qed.

Lemma mem_size_unfold (fin : string) :
  mem_size fin =
    match fscanf_x fin with
    | Some (_, rest) => 1 + mem_size rest
    | None => 0
    end.
Proof.
  assert (S : forall fuel fin count,
            mem_size_loop fuel fin count = count + mem_size_loop fuel fin 0).
  { induction fuel as [|fuel IH]; intros f c; cbn [mem_size_loop]; [lia|].
    destruct (fscanf_x f) as [[v rest]|]; [|lia].
    rewrite (IH rest (c + 1)), (IH rest (0 + 1)); lia. }
  unfold mem_size; rewrite mem_size_loop_enough by lia.
  destruct (fscanf_x fin) as [[v rest]|]; [|reflexivity].
  apply S.
Qed.

(** The loop of [read_machine_code] finds as many numbers as [mem_size]
    has counted. *)
Lemma read_cells_length (fuel : nat) : forall (fin : string) (count : Z),
  exists k : nat,
    mem_size_loop fuel fin count = count + Z.of_nat k /\
    length (read_cells k fin) = k.
Proof.
  induction fuel as [|fuel IH]; intros fin count.
  - exists 0%nat; split; [cbn [mem_size_loop]; lia|reflexivity].
  - cbn [mem_size_loop].
    destruct (fscanf_x fin) as [[v rest]|] eqn:E.
    + destruct (IH rest (count + 1)) as [k [Hk Lk]].
      exists (S k); split; [lia|].
      cbn [read_cells]; rewrite E; cbn [length]; rewrite Lk; reflexivity.
    + exists 0%nat; split; [lia|reflexivity].
Qed.

Lemma read_machine_code_well_formed (fin : string) :
  mem_size fin < 2 ^ 32 -> well_formed (read_machine_code fin).
Proof.
  intros H; unfold read_machine_code, well_formed; cbn [size data].
  destruct (read_cells_length (String.length fin) fin 0) as [k [Hk Lk]].
  unfold mem_size in *; rewrite Hk in *.
  rewrite Z.add_0_l, Nat2Z.id, Lk, to_unsigned_small by lia.
  split; [reflexivity|exact H].
Qed.

(** ** Claims on the memory *)

Lemma to_int_to_unsigned (v : Z) :
  INT_MIN <= v <= INT_MAX -> to_int (to_unsigned v) = v.
Proof.
  unfold to_int, to_unsigned, INT_MIN, INT_MAX; intros H.
  rewrite Zplus_mod_idemp_l, Z.mod_small by lia; lia.
Qed.

Lemma cell_in_range (m : memory_t) (a : Z) :
  0 <= a < Z.of_nat (length (data m)) -> exists x, cell m a = Some x.
Proof.
  intros H; unfold cell.
  replace (a <? 0) with false by (symmetry; apply Z.ltb_ge; lia).
  destruct (lookup_lt_is_Some_2 (data m) (Z.to_nat a)) as [x E]; [lia|].
  exists x; exact E.
Qed.

(** Beyond [size] every access is fatal. *)
Lemma beyond_size_is_fatal (w : world) (a v : Z) :
  a <> IO_ADDRESS -> size (mem w) < to_unsigned a ->
  get a w = Exit 139 w /\ set a v w = Exit 139 w.
Proof.
  intros Ha Hs; unfold get, set.
  destruct (Z.eqb_spec a IO_ADDRESS) as [E|_]; [contradiction|].
  replace (to_unsigned a >? size (mem w)) with true
    by (symmetry; apply Z.gtb_lt; assumption).
  split; reflexivity.
Qed.

(** C4 at the address just past the end: in a memory of [size] cells the
    address [size] is outside the range [0, size), and neither [get] nor
    [set] ends the process there; both go on to the array access, which
    is out of bounds.  (The bounds test of the code is [address > size].) *)
Theorem access_at_size_is_not_fatal (w : world) (v : Z) :
  well_formed (mem w) -> size (mem w) <> IO_ADDRESS ->
  get (size (mem w)) w = Undefined /\ set (size (mem w)) v w = Undefined /\
  get (size (mem w)) w <> Exit 139 w /\ set (size (mem w)) v w <> Exit 139 w.
Proof.
  intros [Hs Hb] Hio.
  assert (G : get (size (mem w)) w = Undefined /\ set (size (mem w)) v w = Undefined).
  { unfold get, set.
    destruct (Z.eqb_spec (size (mem w)) IO_ADDRESS) as [E|_]; [contradiction|].
    rewrite to_unsigned_small by lia.
    replace (size (mem w) >? size (mem w)) with false by (rewrite Z.gtb_ltb, Z.ltb_irrefl; reflexivity).
    unfold cell.
    replace (size (mem w) <? 0) with false by (symmetry; apply Z.ltb_ge; lia).
    rewrite (lookup_ge_None_2 (data (mem w)) (Z.to_nat (size (mem w)))) by lia.
    split; reflexivity. }
  destruct G as [G1 G2]; rewrite G1, G2.
  repeat split; discriminate.
Qed.

Lemma access_at_size_is_not_fatal_witness :
  get 3 five_world = Undefined /\ set 3 7 five_world = Undefined.
Proof.
  destruct (access_at_size_is_not_fatal five_world 7) as [G [S _]].
  - split; [reflexivity|vm_compute; reflexivity].
  - discriminate.
  - split; [exact G|exact S].
Defined.

(** C7: at the reserved address [get] returns the code of the next
    character of the console input and [set] writes its value as one
    character to the console output, whatever the memory is: its size is
    not tested, no cell is read and the memory is left as it was. *)
Theorem io_address_bypasses_memory (m : memory_t) (c : ascii) (input output : string)
    (v : Z) :
  get IO_ADDRESS {| mem := m; stdin := String c input; stdout := output |}
    = Ret (int_of_char c) {| mem := m; stdin := input; stdout := output |} /\
  set IO_ADDRESS v {| mem := m; stdin := input; stdout := output |}
    = Ret tt {| mem := m; stdin := input;
                stdout := (output ++ String (char_of_int v) EmptyString)%string |}.
Proof. split; reflexivity. Qed.

Example io_address_in_empty_memory :
  get IO_ADDRESS {| mem := {| size := 0; data := [] |}; stdin := "A"; stdout := "" |}
    = Ret 65 {| mem := {| size := 0; data := [] |}; stdin := ""; stdout := "" |} /\
  set IO_ADDRESS 66 {| mem := {| size := 0; data := [] |}; stdin := "A"; stdout := "" |}
    = Ret tt {| mem := {| size := 0; data := [] |}; stdin := "A"; stdout := "B" |} /\
  get 4094 {| mem := {| size := 0; data := [] |}; stdin := "A"; stdout := "" |}
    = Exit 139 {| mem := {| size := 0; data := [] |}; stdin := "A"; stdout := "" |}.
Proof. repeat split. Qed.

(** C10: for an address [a] inside the memory that is not the reserved
    one, [set] stores the value [v] of the [int] it is given, unmasked,
    in cell [a], leaves every other cell, the size and the console as
    they were, and [get] at [a] then returns [v] itself, also when [v] is
    negative or above 16 bits. *)
Theorem set_then_get (w : world) (a v : Z) :
  a <> IO_ADDRESS ->
  0 <= a < size (mem w) ->
  size (mem w) = Z.of_nat (length (data (mem w))) ->
  INT_MIN <= v <= INT_MAX ->
  exists w',
    set a v w = Ret tt w' /\
    get a w' = Ret v w' /\
    cell (mem w') a = Some (to_unsigned v) /\
    (0 <= v -> cell (mem w') a = Some v) /\
    (forall b, b <> a -> cell (mem w') b = cell (mem w) b) /\
    size (mem w') = size (mem w) /\
    length (data (mem w')) = length (data (mem w)) /\
    stdin w' = stdin w /\ stdout w' = stdout w.
Proof.
  intros Hio Ha Hs Hv.
  assert (Hu : (to_unsigned a >? size (mem w)) = false).
  { rewrite Z.gtb_ltb; apply Z.ltb_ge. unfold to_unsigned.
    pose proof (Z.mod_le a (2 ^ 32)); lia. }
  destruct (cell_in_range (mem w) a) as [x Hx]; [lia|].
  assert (Hc : cell {| size := size (mem w);
                       data := <[Z.to_nat a := to_unsigned v]> (data (mem w)) |} a
               = Some (to_unsigned v)).
  { unfold cell; cbn [data].
    replace (a <? 0) with false by (symmetry; apply Z.ltb_ge; lia).
    apply list_lookup_insert_eq; lia. }
  eexists; split; [|split; [|split; [|split; [|split]]]].
  - unfold set.
    destruct (Z.eqb_spec a IO_ADDRESS) as [E|_]; [contradiction|].
    rewrite Hu, Hx; reflexivity.
  - unfold get; cbn [mem size].
    destruct (Z.eqb_spec a IO_ADDRESS) as [E|_]; [contradiction|].
    rewrite Hu, Hc, to_int_to_unsigned by assumption; reflexivity.
  - exact Hc.
  - intros H0; cbn [mem]; rewrite Hc, to_unsigned_small; [reflexivity|].
    unfold INT_MAX in Hv; lia.
  - intros b Hb; unfold cell; cbn [mem data].
    destruct (b <? 0) eqn:Eb; [reflexivity|].
    apply Z.ltb_ge in Eb.
    apply list_lookup_insert_ne; intros E; apply Hb.
    apply Z2Nat.inj in E; lia.
  - cbn [mem size data stdin stdout]; rewrite length_insert; repeat split.
Qed.

Lemma set_then_get_witness :
  exists w',
    set 1 (-1) {| mem := five_memory; stdin := "in"; stdout := "out" |} = Ret tt w' /\
    get 1 w' = Ret (-1) w' /\
    cell (mem w') 1 = Some 4294967295.
Proof.
  destruct (set_then_get {| mem := five_memory; stdin := "in"; stdout := "out" |} 1 (-1))
    as [w' [S [G [C _]]]].
  - discriminate.
  - vm_compute; split; [discriminate|reflexivity].
  - reflexivity.
  - vm_compute; split; discriminate.
  - exists w'; split; [exact S|]; split; [exact G|exact C].
Defined.

Example set_then_get_above_16_bits :
  set 0 70000 {| mem := five_memory; stdin := ""; stdout := "" |}
    = Ret tt {| mem := {| size := 3; data := [70000; 0x7000; 5] |}; stdin := ""; stdout := "" |} /\
  get 0 {| mem := {| size := 3; data := [70000; 0x7000; 5] |}; stdin := ""; stdout := "" |}
    = Ret 70000 {| mem := {| size := 3; data := [70000; 0x7000; 5] |}; stdin := ""; stdout := "" |}.
Proof. split; reflexivity. Qed.

(** ** Claims on the fetch-execute cycle *)

Lemma get_operand_range (x : Z) : 0 <= get_operand x <= 4095.
Proof.
  unfold get_operand; change 4095 with (Z.ones 12).
  rewrite Z.land_ones by lia.
  change (2 ^ 12) with 4096; change (Z.ones 12) with 4095.
  pose proof (Z.mod_pos_bound x 4096); lia.
Qed.

(** The jump sets [PC] to the operand, reads the word there into [IR]
    and leaves [PC] one further, in the same cycle. *)
Lemma jump_and_fetch_in_memory (r : cpu_t) (w : world) (x : Z) :
  get_operand (IR r) <> IO_ADDRESS ->
  get_operand (IR r) <= size (mem w) ->
  cell (mem w) (get_operand (IR r)) = Some x ->
  jump_and_fetch r w =
    Ret {| PC := get_operand (IR r) + 1; ACC := ACC r; IR := to_int x;
           state := state r; done := done r; steps := steps r |} w.
Proof.
  intros Hio Hs Hx.
  pose proof (get_operand_range (IR r)) as Hr.
  unfold jump_and_fetch, fetch, bind, int_result, ret, get, in_int, INT_MIN, INT_MAX.
  cbn [PC with_PC].
  replace ((- 2 ^ 31 <=? get_operand (IR r) + 1) && (get_operand (IR r) + 1 <=? 2 ^ 31 - 1))
    with true
    by (symmetry; apply andb_true_iff; split; apply Z.leb_le; lia).
  destruct (Z.eqb_spec (get_operand (IR r)) IO_ADDRESS) as [E|_]; [contradiction|].
  rewrite to_unsigned_small by lia.
  replace (get_operand (IR r) >? size (mem w)) with false
    by (symmetry; rewrite Z.gtb_ltb; apply Z.ltb_ge; lia).
  rewrite Hx; reflexivity.
Qed.

Lemma fetch_at_operand (r : cpu_t) (w : world) :
  fetch (with_PC r (get_operand (IR r))) w = branch_taken r w.
Proof.
  pose proof (get_operand_range (IR r)) as Hr.
  unfold fetch, bind, int_result, in_int, INT_MIN, INT_MAX, branch_taken, ret.
  cbn [PC with_PC].
  replace ((- 2 ^ 31 <=? get_operand (IR r) + 1) && (get_operand (IR r) + 1 <=? 2 ^ 31 - 1))
    with true
    by (symmetry; apply andb_true_iff; split; apply Z.leb_le; lia).
  destruct (get (get_operand (IR r)) w); reflexivity.
Qed.

(** C9: in the execute phase [JGE] jumps exactly when [ACC >= 0] and
    [JNE] exactly when [ACC <> 0], and the jump is the one of [JMP]: the
    word at the operand is read, [PC] becomes the operand plus one and
    [IR] the word read, with the state still [EXECUTE], so the fetch of
    the target is part of the same iteration (a read that fails ends the
    run as it does elsewhere).  Otherwise the registers are as they were,
    [PC] included, and only the state goes back to [FETCH]; the two
    outcomes are never the same. *)
Theorem conditional_jumps (r : cpu_t) (w : world) :
  (get_opcode (IR r) = JMP -> execute r w = branch_taken r w) /\
  (get_opcode (IR r) = JGE -> 0 <= ACC r -> execute r w = branch_taken r w) /\
  (get_opcode (IR r) = JGE -> ACC r < 0 -> execute r w = branch_not_taken r w) /\
  (get_opcode (IR r) = JNE -> ACC r <> 0 -> execute r w = branch_taken r w) /\
  (get_opcode (IR r) = JNE -> ACC r = 0 -> execute r w = branch_not_taken r w) /\
  (forall x,
     get_operand (IR r) <> IO_ADDRESS ->
     get_operand (IR r) <= size (mem w) ->
     cell (mem w) (get_operand (IR r)) = Some x ->
     branch_taken r w =
       Ret {| PC := get_operand (IR r) + 1; ACC := ACC r; IR := to_int x;
              state := state r; done := done r; steps := steps r |} w) /\
  (state r = EXECUTE -> branch_taken r w <> branch_not_taken r w).
Proof.
  pose proof (fetch_at_operand r w) as F.
  split; [|split; [|split; [|split; [|split; [|split]]]]].
  - intros Hop; unfold execute; rewrite Hop.
    cbn [Z.eqb JMP JGE JNE LDA STO ADD SUB STP Pos.eqb]; exact F.
  - intros Hop H; unfold execute; rewrite Hop.
    cbn [Z.eqb JMP JGE JNE LDA STO ADD SUB STP Pos.eqb].
    replace (ACC r >=? 0) with true; [exact F|].
    symmetry; rewrite Z.geb_leb; apply Z.leb_le; assumption.
  - intros Hop H; unfold execute; rewrite Hop.
    cbn [Z.eqb JMP JGE JNE LDA STO ADD SUB STP Pos.eqb].
    replace (ACC r >=? 0) with false; [reflexivity|].
    symmetry; rewrite Z.geb_leb; apply Z.leb_gt; assumption.
  - intros Hop H; unfold execute; rewrite Hop.
    cbn [Z.eqb JMP JGE JNE LDA STO ADD SUB STP Pos.eqb].
    destruct (Z.eqb_spec (ACC r) 0) as [E|_]; [contradiction|exact F].
  - intros Hop H; unfold execute; rewrite Hop, H.
    cbn [Z.eqb JMP JGE JNE LDA STO ADD SUB STP Pos.eqb negb]; reflexivity.
  - intros x Hio Hs Hx.
    pose proof (get_operand_range (IR r)) as Hr.
    unfold branch_taken, get.
    destruct (Z.eqb_spec (get_operand (IR r)) IO_ADDRESS) as [E|_]; [contradiction|].
    rewrite to_unsigned_small by lia.
    replace (get_operand (IR r) >? size (mem w)) with false
      by (symmetry; rewrite Z.gtb_ltb; apply Z.ltb_ge; lia).
    rewrite Hx; reflexivity.
  - intros Hs; unfold branch_taken, branch_not_taken.
    destruct (get (get_operand (IR r)) w); try discriminate.
    intros H; injection H as _ _ H _; congruence.
Qed.

Lemma conditional_jumps_witness :
  execute (at_jge (-1)) five_world
    = Ret {| PC := 1; ACC := -1; IR := 0x5002; state := FETCH; done := false;
             steps := 2 |} five_world /\
  execute (at_jge 0) five_world = branch_taken (at_jge 0) five_world /\
  execute (at_jge 5) five_world = branch_taken (at_jge 5) five_world /\
  execute (at_jne 0) five_world
    = Ret {| PC := 1; ACC := 0; IR := 0x6002; state := FETCH; done := false;
             steps := 2 |} five_world /\
  execute (at_jne 5) five_world = branch_taken (at_jne 5) five_world /\
  branch_taken (at_jne 5) five_world
    = Ret {| PC := 3; ACC := 5; IR := 5; state := EXECUTE; done := false;
             steps := 2 |} five_world /\
  branch_taken (at_jge 0) five_world <> branch_not_taken (at_jge 0) five_world.
Proof.
  split; [|split; [|split; [|split; [|split; [|split]]]]].
  - destruct (conditional_jumps (at_jge (-1)) five_world) as (_ & _ & H & _).
    apply H; reflexivity.
  - destruct (conditional_jumps (at_jge 0) five_world) as (_ & H & _).
    apply H; [reflexivity|discriminate].
  - destruct (conditional_jumps (at_jge 5) five_world) as (_ & H & _).
    apply H; [reflexivity|discriminate].
  - destruct (conditional_jumps (at_jne 0) five_world) as (_ & _ & _ & _ & H & _).
    apply H; reflexivity.
  - destruct (conditional_jumps (at_jne 5) five_world) as (_ & _ & _ & H & _).
    apply H; [reflexivity|discriminate].
  - destruct (conditional_jumps (at_jne 5) five_world) as (_ & _ & _ & _ & _ & H & _).
    apply (H 5); [discriminate|discriminate|reflexivity].
  - destruct (conditional_jumps (at_jge 0) five_world) as (_ & _ & _ & _ & _ & _ & H).
    apply H; reflexivity.
Defined.

Example conditional_jumps_on_five_memory :
  execute (at_jge (-1)) five_world
    = Ret {| PC := 1; ACC := -1; IR := 0x5002; state := FETCH; done := false; steps := 2 |}
        five_world /\
  execute (at_jge 0) five_world
    = Ret {| PC := 3; ACC := 0; IR := 5; state := EXECUTE; done := false; steps := 2 |}
        five_world /\
  execute (at_jge 5) five_world
    = Ret {| PC := 3; ACC := 5; IR := 5; state := EXECUTE; done := false; steps := 2 |}
        five_world /\
  execute (at_jne 0) five_world
    = Ret {| PC := 1; ACC := 0; IR := 0x6002; state := FETCH; done := false; steps := 2 |}
        five_world /\
  execute (at_jne (-7)) five_world
    = Ret {| PC := 3; ACC := -7; IR := 5; state := EXECUTE; done := false; steps := 2 |}
        five_world.
Proof. repeat split. Qed.

(** ** End-to-end claims *)

(** Once [fuel] iterations end the loop of [emulate], more fuel gives the
    same result. *)
Lemma emulate_loop_more (fuel k : nat) : forall (limit : Z) (r : cpu_t) (w : world)
    (o : outcome world cpu_t),
  emulate_loop fuel limit r w = Some o ->
  emulate_loop (fuel + k) limit r w = Some o.
Proof.
  induction fuel as [|fuel IH]; intros limit r w o H.
  - cbn [emulate_loop] in H.
    destruct (negb (done r) && ((limit <=? 0) || (steps r <? limit))) eqn:E;
      [discriminate|].
    destruct k; cbn [Nat.add emulate_loop]; rewrite E; exact H.
  - cbn [Nat.add emulate_loop] in H |- *.
    destruct (negb (done r) && ((limit <=? 0) || (steps r <? limit))); [|exact H].
    destruct (cycle r w) as [r' w'|status w'|]; [apply IH; exact H|exact H|exact H].
Qed.

(** C1 on the assembler of the code: the word written for the line [STP]
    of [five_program] is made from what the buffer [addr_s] holds, since
    [sscanf] stores nothing into it on that line.  The call for the line
    before has stored [:five] there; when the buffer still holds it, the
    words written are 0002, 7002, 0005, not 0002, 7000, 0005, and when it
    holds [:fiv] the assembly ends with status 1.  Only a buffer that
    parses to 0, such as the empty string that the comment in the code
    expects, gives 7000.  The emulator does what the claim says on the
    words of the claim, and on those written as well: it halts on [STP]
    after 4 iterations, neither fewer nor more, with [ACC = 5] and
    [PC = 2]. *)
Theorem five_program_stp_word (addr_s : nat -> string) (label0 input : string)
    (k : nat) :
  sscanf_s (advance 3 ("LDA :five" ++ nl)) (addr_s 0%nat) = ":five" /\
  sscanf_s (advance 3 ("STP" ++ nl)) (addr_s 1%nat) = addr_s 1%nat /\
  assemble (with_buffer addr_s 1 ":five") label0 five_program
    = Ret tt ["0002"; "7002"; "0005"] /\
  assemble (with_buffer addr_s 1 ":fiv") label0 five_program = Exit 1 ["0002"] /\
  assemble (with_buffer addr_s 1 "") label0 five_program
    = Ret tt ["0002"; "7000"; "0005"] /\
  read_machine_code (file_text ["0002"; "7000"; "0005"]) = five_memory /\
  read_machine_code (file_text ["0002"; "7002"; "0005"]) = five_memory_7002 /\
  emulate 3 five_memory 0 input = None /\
  emulate (4 + k) five_memory 0 input =
    Some (Ret {| PC := 2; ACC := 5; IR := 0x7000; state := EXECUTE;
                 done := true; steps := 4 |}
              {| mem := five_memory; stdin := input; stdout := EmptyString |}) /\
  emulate 3 five_memory_7002 0 input = None /\
  emulate (4 + k) five_memory_7002 0 input =
    Some (Ret {| PC := 2; ACC := 5; IR := 0x7002; state := EXECUTE;
                 done := true; steps := 4 |}
              {| mem := five_memory_7002; stdin := input; stdout := EmptyString |}).
Proof.
  split; [reflexivity|].
  split; [reflexivity|].
  do 6 (split; [vm_compute; reflexivity|]).
  split; [apply emulate_loop_more; vm_compute; reflexivity|].
  split; [vm_compute; reflexivity|].
  apply emulate_loop_more; vm_compute; reflexivity.
Qed.

(** C8 on the assembler of the code: on a line that holds only [STP]
    [sscanf] finds no token and stores nothing, so the operand is not the
    empty string but whatever the buffer [addr_s] holds.  After the line
    [LDA 1] it holds [1] and the line [STP] is written as 7001, not 7000;
    for the program made of the one line [STP] the word is 7000 when the
    buffer happens to parse to 0, 700c when it holds [12], and the
    assembly ends with status 1 when it holds [:x].  The emulator does
    what the claim says on the word 7000: it halts after 2 iterations,
    neither fewer nor more, with [ACC = 0]. *)
Theorem stp_line_keeps_buffer (addr_s : nat -> string) (b label0 input : string)
    (k : nat) :
  sscanf_s (advance 3 "STP") b = b /\
  sscanf_s (advance 3 ("STP" ++ nl)) b = b /\
  sscanf_s (advance 3 ("LDA 1" ++ nl)) b = "1" /\
  assemble (with_buffer addr_s 1 "1") label0 lda_stp_program = Ret tt ["0001"; "7001"] /\
  assemble (with_buffer addr_s 0 "") label0 "STP" = Ret tt ["7000"] /\
  assemble (with_buffer addr_s 0 "12") label0 "STP" = Ret tt ["700c"] /\
  assemble (with_buffer addr_s 0 ":x") label0 "STP" = Exit 1 [] /\
  read_machine_code (file_text ["7000"]) = stp_memory /\
  emulate 1 stp_memory 0 input = None /\
  emulate (2 + k) stp_memory 0 input =
    Some (Ret {| PC := 1; ACC := 0; IR := 0x7000; state := EXECUTE;
                 done := true; steps := 2 |}
              {| mem := stp_memory; stdin := input; stdout := EmptyString |}).
Proof.
  split; [reflexivity|].
  split; [reflexivity|].
  split; [reflexivity|].
  do 6 (split; [vm_compute; reflexivity|]).
  apply emulate_loop_more; vm_compute; reflexivity.
Qed.

(** * Further properties *)

(** ** Further properties of the first pass *)

Lemma slots_cons (line : string) (rest : list string) :
  slots (line :: rest) = ((if takes_slot line then 1 else 0) + slots rest)%nat.
Proof. unfold slots; cbn [List.filter]; destruct (takes_slot line); reflexivity. Qed.

Lemma takes_slot_cases (line : string) :
  takes_slot line =
    if Ascii.eqb (deref line) LABEL_C then false
    else negb (isspace (deref line)) && negb (Ascii.eqb (deref line) COMMENT_C).
Proof.
  unfold takes_slot, is_blank, is_comment, is_label.
  destruct (Ascii.eqb (deref line) LABEL_C), (isspace (deref line)),
    (Ascii.eqb (deref line) COMMENT_C); reflexivity.
Qed.

Lemma definitions_bounds (lines : list string) : forall (label : string) (addr : Z),
  Forall (fun d => addr <= snd d <= addr + Z.of_nat (slots lines))
    (definitions label addr lines).
Proof.
  induction lines as [|line rest IH]; intros label addr; [constructor|].
  cbn [definitions]; rewrite slots_cons, takes_slot_cases.
  destruct (Ascii.eqb (deref line) LABEL_C).
  - constructor; [cbn [snd]; lia|apply IH].
  - destruct (negb (isspace (deref line)) && negb (Ascii.eqb (deref line) COMMENT_C)).
    + eapply List.Forall_impl; [|apply IH].
      intros d Hd; cbn beta in Hd; lia.
    + apply IH.
Qed.

Lemma last_defined_In (defs : list (string * Z)) (name : string) (a : Z) :
  last_defined defs name = Some a -> In (name, a) defs.
Proof.
  unfold last_defined; intros H.
  destruct (find (fun d => String.eqb name (fst d)) (rev defs)) as [[l b]|] eqn:E;
    [|discriminate].
  apply find_some in E as [Hin Heq]; cbn [fst] in Heq.
  apply String.eqb_eq in Heq; injection H as <-; subst l.
  apply in_rev; exact Hin.
Qed.

Lemma last_defined_None (defs : list (string * Z)) (name : string) :
  last_defined defs name = None <-> ~ In name (map fst defs).
Proof.
  unfold last_defined; split.
  - intros H Hin.
    destruct (find (fun d => String.eqb name (fst d)) (rev defs)) eqn:E; [discriminate|].
    apply in_map_iff in Hin as [[l b] [Hl Hin]]; cbn [fst] in Hl; subst l.
    apply in_rev in Hin.
    pose proof (find_none _ _ E _ Hin) as N; cbn [fst] in N.
    rewrite String.eqb_refl in N; discriminate.
  - intros H.
    destruct (find (fun d => String.eqb name (fst d)) (rev defs)) as [[l b]|] eqn:E;
      [|reflexivity].
    apply find_some in E as [Hin Heq]; cbn [fst] in Heq.
    apply String.eqb_eq in Heq; subst l.
    exfalso; apply H; apply in_map_iff; exists (name, b); split; [reflexivity|].
    apply in_rev; exact Hin.
Qed.

(** X1: after the first pass [get_address] returns -1 exactly for the
    names that no label line of the source has recorded; for every other
    name it returns an address between 0 and the final value of the
    address counter. *)
Theorem lookup_fails_only_for_undefined (label0 fin name : string) :
  (get_address (generate_label_table label0 fin) name = -1 <->
   ~ In name (map fst (definitions label0 0 (file_lines fin)))) /\
  (In name (map fst (definitions label0 0 (file_lines fin))) ->
   0 <= get_address (generate_label_table label0 fin) name
     <= p1_addr (first_pass label0 fin)).
Proof.
  assert (T : generate_label_table label0 fin
              = table_of (definitions label0 0 (file_lines fin))).
  { unfold generate_label_table, first_pass; rewrite fold_label_step_table; reflexivity. }
  assert (A : p1_addr (first_pass label0 fin) = Z.of_nat (slots (file_lines fin))).
  { unfold first_pass; rewrite fold_label_step_addr; reflexivity. }
  rewrite T, get_address_table_of, A.
  pose proof (definitions_bounds (file_lines fin) label0 0) as B.
  destruct (last_defined (definitions label0 0 (file_lines fin)) name) as [a|] eqn:E.
  - apply last_defined_In in E as Hin.
    pose proof (proj1 (List.Forall_forall _ _) B _ Hin) as Ha; cbn [snd] in Ha.
    cbn [address_or_missing]; split; [split|].
    + intros ->; lia.
    + intros N; exfalso; apply N; apply in_map_iff; exists (name, a); split;
        [reflexivity|exact Hin].
    + intros _; lia.
  - apply last_defined_None in E; cbn [address_or_missing].
    split; [split; [intros _; exact E|reflexivity]|intros Hin; contradiction].
Qed.

Lemma lookup_fails_only_for_undefined_witness :
  0 <= get_address (generate_label_table "" five_program) "five"
    <= p1_addr (first_pass "" five_program).
Proof.
  apply (lookup_fails_only_for_undefined "" five_program "five").
  vm_compute; left; reflexivity.
Defined.

Lemma sscanf_s_token (line buf : string) :
  label_token line <> EmptyString ->
  sscanf_s (advance 1 line) buf = label_token line.
Proof.
  unfold label_token, sscanf_s.
  destruct (skip_space (advance 1 line)); [congruence|reflexivity].
Qed.

Lemma fold_label_step_label (lines : list string) : forall (t t' : label_table_t)
    (l : string) (a a' : Z),
  p1_label (fold_left label_step lines {| p1_table := t; p1_label := l; p1_addr := a |})
  = p1_label (fold_left label_step lines {| p1_table := t'; p1_label := l; p1_addr := a' |}).
Proof.
  induction lines as [|y lines IH]; intros t t' l a a'; [reflexivity|].
  cbn [fold_left]; unfold label_step; cbn [p1_label p1_addr p1_table].
  destruct (Ascii.eqb (deref y) LABEL_C); [apply IH|].
  destruct (negb (isspace (deref y)) && negb (Ascii.eqb (deref y) COMMENT_C)); apply IH.
Qed.

Lemma definitions_app (xs ys : list string) : forall (label : string) (addr : Z),
  definitions label addr (xs ++ ys) =
    (definitions label addr xs ++
     definitions
       (p1_label (fold_left label_step xs
                    {| p1_table := NULL; p1_label := label; p1_addr := addr |}))
       (addr + Z.of_nat (slots xs)) ys)%list.
Proof.
  induction xs as [|x xs IH]; intros label addr.
  - cbn [app definitions fold_left p1_label]; unfold slots; cbn [List.filter length].
    rewrite Z.add_0_r; reflexivity.
  - cbn [app definitions fold_left]; rewrite slots_cons, takes_slot_cases.
    unfold label_step; cbn [p1_label p1_addr p1_table].
    destruct (Ascii.eqb (deref x) LABEL_C).
    + rewrite IH; cbn [app Nat.add]; do 2 f_equal.
      f_equal; apply fold_label_step_label.
    + destruct (negb (isspace (deref x)) && negb (Ascii.eqb (deref x) COMMENT_C)).
      * rewrite IH; do 2 f_equal; lia.
      * rewrite IH; reflexivity.
Qed.

Lemma definitions_avoid (name : string) (lines : list string) :
  Forall (fun l => is_label l = true ->
                   label_token l <> EmptyString /\ label_token l <> name) lines ->
  forall (label : string) (addr : Z),
    Forall (fun d => fst d <> name) (definitions label addr lines).
Proof.
  induction 1 as [|line rest Hl _ IH]; intros label addr; [constructor|].
  cbn [definitions]; unfold is_label in Hl.
  destruct (Ascii.eqb (deref line) LABEL_C).
  - destruct (Hl eq_refl) as [Hne Hn].
    rewrite sscanf_s_token by assumption.
    constructor; [exact Hn|apply IH].
  - destruct (negb (isspace (deref line)) && negb (Ascii.eqb (deref line) COMMENT_C));
      apply IH.
Qed.

(** X2: a label resolves to the address of the next line that takes an
    address slot, whether it is used before or after its definition: when
    a label line carries the token [name] and no later label line
    records [name] again (each later label line carries another token),
    the table gives [name] the number of slot-taking lines that precede
    the label line. *)
Theorem label_resolves_to_next_slot (label0 fin name line : string)
    (pre post : list string) :
  file_lines fin = (pre ++ line :: post)%list ->
  is_label line = true ->
  label_token line = name ->
  name <> EmptyString ->
  Forall (fun l => is_label l = true ->
                   label_token l <> EmptyString /\ label_token l <> name) post ->
  get_address (generate_label_table label0 fin) name = Z.of_nat (slots pre).
Proof.
  intros Hf Hl Ht Hne Hpost.
  assert (T : generate_label_table label0 fin
              = table_of (definitions label0 0 (file_lines fin))).
  { unfold generate_label_table, first_pass; rewrite fold_label_step_table; reflexivity. }
  rewrite T, get_address_table_of, Hf, definitions_app.
  cbn [definitions]; unfold is_label in Hl; rewrite Hl.
  rewrite sscanf_s_token by (rewrite Ht; exact Hne).
  rewrite Ht, last_defined_split; [reflexivity|].
  apply definitions_avoid; exact Hpost.
Qed.

Lemma label_resolves_to_next_slot_witness :
  get_address (generate_label_table "" five_program) "five" = 2.
Proof.
  apply (label_resolves_to_next_slot "" five_program "five" (":five" ++ nl)
           ["LDA :five" ++ nl; "STP" ++ nl]%string ["#0005" ++ nl]%string).
  - reflexivity.
  - reflexivity.
  - reflexivity.
  - discriminate.
  - constructor; [intros H; discriminate H|constructor].
Defined.

(** ** Further properties of the second pass *)

Lemma pad_hex_any (width : nat) (v : Z) :
  0 <= v < 2 ^ 64 ->
  all_hex (pad width (hex v)) = true /\
  (width <= String.length (pad width (hex v)))%nat /\
  (1 <= String.length (pad width (hex v)))%nat.
Proof.
  intros Hv; unfold pad, hex.
  destruct (hex_loop_spec 16 16 v EmptyString) as [A [_ L]];
    [lia|exact Hv|reflexivity|].
  destruct (zeros_spec (width - String.length (hex_loop 16 v EmptyString))
              (hex_loop 16 v EmptyString) A) as [A' [_ L']].
  cbn [String.length] in L.
  split; [exact A'|]; rewrite L'; lia.
Qed.

Lemma fmt_x_hex (width : nat) (v : Z) :
  all_hex (fmt_x width v) = true /\
  (width <= String.length (fmt_x width v))%nat /\
  (1 <= String.length (fmt_x width v))%nat.
Proof.
  apply pad_hex_any; unfold to_unsigned.
  pose proof (Z.mod_pos_bound v (2 ^ 32)); lia.
Qed.

Lemma fmt_lx_hex (width : nat) (v : Z) :
  all_hex (fmt_lx width v) = true /\
  (width <= String.length (fmt_lx width v))%nat /\
  (1 <= String.length (fmt_lx width v))%nat.
Proof.
  apply pad_hex_any; unfold to_ulong.
  pose proof (Z.mod_pos_bound v (2 ^ 64)); lia.
Qed.

Lemma hex_line_intro (text : string) :
  all_hex text = true -> (1 <= String.length text)%nat -> hex_line text = true.
Proof.
  intros A L; unfold hex_line; rewrite A.
  destruct text; [simpl in L; lia|reflexivity].
Qed.

Lemma encode_operand_outcome (addr_s0 : string) (i : Z) (line : string)
    (table : label_table_t) (fout : fout_t) :
  one_line_outcome fout (encode_operand addr_s0 i line table fout) true.
Proof.
  unfold encode_operand, bind, fprintf_line, ret, exit.
  assert (H : forall addr, exists text,
             (fout ++ [(fmt_x 1 i ++ fmt_x 3 addr)%string])%list = (fout ++ [text])%list /\
             hex_line text = true /\ (4 <= String.length text)%nat).
  { intros addr; eexists; split; [reflexivity|].
    destruct (fmt_x_hex 1 i) as [A1 [L1 _]], (fmt_x_hex 3 addr) as [A3 [L3 _]].
    split; [apply hex_line_intro|]; rewrite ?all_hex_app, ?length_append, ?A1, ?A3;
      [reflexivity|lia|lia]. }
  destruct (Ascii.eqb (deref (sscanf_s (advance 3 line) addr_s0)) LABEL_C).
  - destruct (get_address table (advance 1 (sscanf_s (advance 3 line) addr_s0)) <? 0);
      cbn [one_line_outcome]; [repeat split|apply H].
  - cbn [one_line_outcome]; apply H.
Qed.

Lemma process_opcode_from_outcome (addr_s0 : string) (names : list string) :
  forall (i : Z) (line : string) (table : label_table_t) (fout : fout_t),
    one_line_outcome fout (process_opcode_from addr_s0 i names line table fout)
      (existsb (fun name => strncmp_eq line name 3) names).
Proof.
  induction names as [|name names IH]; intros i line table fout.
  - reflexivity.
  - cbn [process_opcode_from existsb].
    destruct (strncmp_eq line name 3); [apply encode_operand_outcome|apply IH].
Qed.

Lemma assemble_line_outcome (addr_s0 : string) (table : label_table_t) (line : string)
    (fout : fout_t) :
  one_line_outcome fout (assemble_line addr_s0 table line fout)
    (takes_slot line && negb (is_bad line)).
Proof.
  unfold is_bad, is_instruction, takes_slot, assemble_line,
    is_blank, is_comment, is_label, is_num_literal, is_char_literal.
  destruct (Ascii.eqb (deref line) LABEL_C);
    [destruct (isspace (deref line)), (Ascii.eqb (deref line) COMMENT_C); reflexivity|].
  destruct (Ascii.eqb (deref line) COMMENT_C);
    [destruct (isspace (deref line)); reflexivity|].
  destruct (isspace (deref line)); [reflexivity|].
  cbn [negb andb orb].
  destruct (Ascii.eqb (deref line) NUM_LITERAL_C).
  { unfold bind, fprintf_line, ret; cbn [negb andb one_line_outcome].
    eexists; split; [reflexivity|].
    destruct (fmt_lx_hex 4 (strtol (advance 1 line))) as [A [L _]].
    split; [apply hex_line_intro; [exact A|lia]|exact L]. }
  destruct (Ascii.eqb (deref line) CHAR_LITERAL_C).
  { unfold bind, fprintf_line, ret; cbn [negb andb one_line_outcome].
    eexists; split; [reflexivity|].
    destruct (fmt_x_hex 4 (int_of_char (deref (advance 1 line)))) as [A [L _]].
    split; [apply hex_line_intro; [exact A|lia]|exact L]. }
  cbn [negb andb]; rewrite negb_involutive.
  apply process_opcode_from_outcome.
Qed.

Lemma assemble_lines_outcome (addr_s : nat -> string) (table : label_table_t)
    (lines : list string) : forall (k : nat) (fout : fout_t),
  match assemble_lines addr_s k table lines fout with
  | Ret _ fout' =>
      exists new, fout' = (fout ++ new)%list /\
        Forall (fun t => hex_line t = true /\ (4 <= String.length t)%nat) new /\
        (length new + length (List.filter is_bad lines) = slots lines)%nat
  | Exit status fout' =>
      status = 1 /\
      exists new, fout' = (fout ++ new)%list /\
        Forall (fun t => hex_line t = true /\ (4 <= String.length t)%nat) new /\
        (length new < slots lines)%nat
  | Undefined => False
  end.
Proof.
  induction lines as [|line rest IH]; intros k fout.
  - cbn [assemble_lines]; unfold ret.
    exists []; rewrite app_nil_r; repeat split; constructor.
  - cbn [assemble_lines]; unfold bind at 1.
    pose proof (assemble_line_outcome (addr_s k) table line fout) as H.
    rewrite slots_cons; cbn [List.filter].
    assert (B : is_bad line = true -> takes_slot line = true).
    { unfold is_bad, is_instruction; intros E.
      apply andb_true_iff in E as [E _]; apply andb_true_iff in E as [E _].
      apply andb_true_iff in E as [E _]; exact E. }
    destruct (assemble_line (addr_s k) table line fout) as [ok f1|status f1|];
      cbn [one_line_outcome] in H; [| |contradiction].
    + specialize (IH (S k) f1).
      destruct (takes_slot line) eqn:Et, (is_bad line) eqn:Eb; cbn [negb andb] in H;
        try (specialize (B eq_refl); discriminate).
      * subst f1.
        destruct (assemble_lines addr_s (S k) table rest fout) as [u f2|status f2|];
          [| |contradiction].
        -- destruct IH as [new [-> [F L]]]; exists new; repeat split;
             [assumption|cbn [length]; lia].
        -- destruct IH as [-> [new [-> [F L]]]]; split; [reflexivity|].
           exists new; repeat split; [assumption|lia].
      * destruct H as [text [-> [Hh Hl]]].
        destruct (assemble_lines addr_s (S k) table rest (fout ++ [text])%list) as [u f2|status f2|];
          [| |contradiction].
        -- destruct IH as [new [-> [F L]]]; exists (text :: new).
           rewrite <- app_assoc; repeat split;
             [constructor; [split|]; assumption|cbn [length]; lia].
        -- destruct IH as [-> [new [-> [F L]]]]; split; [reflexivity|].
           exists (text :: new).
           rewrite <- app_assoc; repeat split;
             [constructor; [split|]; assumption|cbn [length]; lia].
      * subst f1.
        destruct (assemble_lines addr_s (S k) table rest fout) as [u f2|status f2|];
          [| |contradiction].
        -- destruct IH as [new [-> [F L]]]; exists new; repeat split;
             [assumption|lia].
        -- destruct IH as [-> [new [-> [F L]]]]; split; [reflexivity|].
           exists new; repeat split; [assumption|lia].
    + destruct H as [-> [-> Hw]].
      apply andb_true_iff in Hw as [Et _]; rewrite Et.
      split; [reflexivity|].
      exists []; rewrite app_nil_r; repeat split; [constructor|cbn [length]; lia].
Qed.

(** X3: whatever the source, [assemble] either returns or leaves through
    [exit] with status 1.  When it returns, the words emitted and the
    lines skipped as bad together are as many as the lines that take an
    address slot, so each bad line leaves the words after it one address
    below the one the first pass gave them; when it exits, fewer words
    have been emitted than slots were counted. *)
Theorem words_and_bad_lines (addr_s : nat -> string) (label0 fin : string) :
  match assemble addr_s label0 fin with
  | Ret _ fout =>
      (length fout + length (List.filter is_bad (file_lines fin)))%nat
        = slots (file_lines fin) /\
      Z.of_nat (length fout) + Z.of_nat (length (List.filter is_bad (file_lines fin)))
        = p1_addr (first_pass label0 fin)
  | Exit status fout =>
      status = 1 /\ (length fout < slots (file_lines fin))%nat
  | Undefined => False
  end.
Proof.
  unfold assemble.
  pose proof (assemble_lines_outcome addr_s (generate_label_table label0 fin)
                (file_lines fin) 0 []) as H.
  assert (A : p1_addr (first_pass label0 fin) = Z.of_nat (slots (file_lines fin))).
  { unfold first_pass; rewrite fold_label_step_addr; reflexivity. }
  destruct (assemble_lines addr_s 0 (generate_label_table label0 fin) (file_lines fin) [])
    as [u fout|status fout|]; [| |exact H].
  - destruct H as [new [-> [_ L]]]; cbn [app]; rewrite A; split; [exact L|lia].
  - destruct H as [-> [new [-> [_ L]]]]; cbn [app]; split; [reflexivity|exact L].
Qed.

(** X4: every line that [assemble] writes, also before an [exit], is made
    of hexadecimal digits only and has at least four of them. *)
Theorem emitted_lines_are_hex (addr_s : nat -> string) (label0 fin : string) :
  Forall (fun t => hex_line t = true /\ (4 <= String.length t)%nat)
    (emitted_lines (assemble addr_s label0 fin)).
Proof.
  unfold assemble.
  pose proof (assemble_lines_outcome addr_s (generate_label_table label0 fin)
                (file_lines fin) 0 []) as H.
  destruct (assemble_lines addr_s 0 (generate_label_table label0 fin) (file_lines fin) [])
    as [u fout|status fout|]; cbn [emitted_lines].
  - destruct H as [new [-> [F _]]]; exact F.
  - destruct H as [_ [new [-> [F _]]]]; exact F.
  - constructor.
Qed.

Example bad_line_shifts_words :
  (forall addr_s,
     assemble addr_s "" ("XYZ" ++ nl ++ ":here" ++ nl ++ "JMP :here" ++ nl)
       = Ret tt ["4001"]) /\
  is_bad ("XYZ" ++ nl) = true.
Proof. split; [intros addr_s; reflexivity|reflexivity]. Qed.

(** ** Further properties of the loader *)

Lemma fscanf_x_newline (s : string) :
  fscanf_x (String (ascii_of_N 10) s) = fscanf_x s.
Proof. reflexivity. Qed.

Lemma mem_size_newline (s : string) :
  mem_size (String (ascii_of_N 10) s) = mem_size s.
Proof.
  rewrite (mem_size_unfold (String (ascii_of_N 10) s)), (mem_size_unfold s).
  rewrite fscanf_x_newline; reflexivity.
Qed.

Lemma read_cells_newline (n : nat) (s : string) :
  read_cells n (String (ascii_of_N 10) s) = read_cells n s.
Proof. destruct n; [reflexivity|]. cbn [read_cells]; rewrite fscanf_x_newline; reflexivity. Qed.

Lemma hex_line_elim (text : string) :
  hex_line text = true -> text <> EmptyString /\ all_hex text = true.
Proof.
  unfold hex_line; intros H; apply andb_true_iff in H as [N A].
  split; [|exact A].
  intros ->; discriminate.
Qed.

Lemma file_text_cons (text : string) (fout : fout_t) :
  file_text (text :: fout) = (text ++ String (ascii_of_N 10) (file_text fout))%string.
Proof. reflexivity. Qed.

Lemma mem_size_file_text (fout : fout_t) :
  Forall (fun t => hex_line t = true) fout ->
  mem_size (file_text fout) = Z.of_nat (length fout).
Proof.
  induction 1 as [|text fout Ht _ IH]; [reflexivity|].
  apply hex_line_elim in Ht as [Hne Hh].
  rewrite mem_size_unfold, file_text_cons, fscanf_x_line by assumption.
  rewrite mem_size_newline, IH; cbn [length]; lia.
Qed.

Lemma strtoul_value_min (v : Z) : strtoul_value false v = Z.min v ULONG_MAX.
Proof.
  unfold strtoul_value.
  destruct (Z.ltb_spec ULONG_MAX v); lia.
Qed.

Lemma read_cells_file_text (fout : fout_t) :
  Forall (fun t => hex_line t = true) fout ->
  read_cells (length fout) (file_text fout) = map loaded_value fout.
Proof.
  induction 1 as [|text fout Ht _ IH]; [reflexivity|].
  apply hex_line_elim in Ht as [Hne Hh].
  cbn [length read_cells map].
  rewrite file_text_cons, fscanf_x_line by assumption.
  rewrite read_cells_newline, IH, strtoul_value_min; reflexivity.
Qed.

(** X5: the loader reads a file of lines of hexadecimal digits back as one
    cell per line, in order, each holding the number its line denotes,
    held at 2^64 - 1 when it is larger and then reduced modulo 2^32; what
    [assemble] writes is such a file, so the memory that the emulator
    runs on has exactly as many cells as the assembler has emitted
    words. *)
Theorem loader_reads_back_lines (addr_s : nat -> string) (label0 fin : string)
    (fout : fout_t) :
  (Forall (fun t => hex_line t = true) fout ->
   Z.of_nat (length fout) < 2 ^ 32 ->
   read_machine_code (file_text fout)
     = {| size := Z.of_nat (length fout); data := map loaded_value fout |}) /\
  (assemble addr_s label0 fin = Ret tt fout ->
   Z.of_nat (length fout) < 2 ^ 32 ->
   read_machine_code (file_text fout)
     = {| size := Z.of_nat (length fout); data := map loaded_value fout |}).
Proof.
  assert (G : Forall (fun t => hex_line t = true) fout ->
              Z.of_nat (length fout) < 2 ^ 32 ->
              read_machine_code (file_text fout)
              = {| size := Z.of_nat (length fout); data := map loaded_value fout |}).
  { intros F L; unfold read_machine_code.
    rewrite mem_size_file_text, Nat2Z.id, read_cells_file_text, to_unsigned_small
      by (assumption || lia).
    reflexivity. }
  split; [exact G|].
  intros E L; apply G; [|exact L].
  pose proof (assemble_lines_outcome addr_s (generate_label_table label0 fin)
                (file_lines fin) 0 []) as F.
  unfold assemble in E; rewrite E in F.
  destruct F as [new [-> [F _]]]; cbn [app].
  eapply List.Forall_impl; [|exact F].
  intros t [H _]; exact H.
Qed.

Lemma loader_reads_back_lines_witness :
  read_machine_code (file_text ["0002"; "7000"; "0005"])
    = {| size := 3; data := map loaded_value ["0002"; "7000"; "0005"] |}.
Proof.
  destruct (loader_reads_back_lines (fun _ => ":five") "" five_program_explicit
              ["0002"; "7000"; "0005"]) as [_ H].
  apply H; [reflexivity|vm_compute; reflexivity].
Defined.

Example loader_holds_long_numerals :
  read_machine_code (file_text ["10000000000000000"])
    = {| size := 1; data := [4294967295] |} /\
  read_machine_code (file_text ["ffffffffffffffff"; "100000005"])
    = {| size := 2; data := [4294967295; 5] |}.
Proof. split; vm_compute; reflexivity. Qed.

(** ** Further properties of the fetch-execute cycle *)

Lemma get_ret (a : Z) (w : world) (x : Z) (w' : world) :
  get a w = Ret x w' ->
  mem w' = mem w /\ stdout w' = stdout w /\
  (stdin w' = stdin w \/ a = IO_ADDRESS /\ exists c, stdin w = String c (stdin w')).
Proof.
  unfold get.
  destruct (a =? IO_ADDRESS) eqn:Ea.
  - destruct (stdin w) as [|c rest] eqn:Ei; [discriminate|].
    intros H; inversion H; subst; cbn [mem stdin stdout].
    apply Z.eqb_eq in Ea.
    repeat split; right; split; [exact Ea|exists c; reflexivity].
  - destruct (to_unsigned a >? size (mem w)); [discriminate|].
    destruct (cell (mem w) a); [|discriminate].
    intros H; inversion H; subst; repeat split; left; reflexivity.
Qed.

Lemma set_ret (a v : Z) (w : world) (u : unit) (w' : world) :
  set a v w = Ret u w' ->
  same_extent (mem w) (mem w') /\ stdin w' = stdin w /\
  (a = IO_ADDRESS -> mem w' = mem w) /\ (a <> IO_ADDRESS -> stdout w' = stdout w) /\
  (forall b, b <> a -> cell (mem w') b = cell (mem w) b).
Proof.
  unfold set, same_extent.
  destruct (Z.eqb_spec a IO_ADDRESS) as [Ea|Ea].
  - intros H; inversion H; subst; cbn [mem stdin stdout].
    repeat split; intros; congruence.
  - destruct (to_unsigned a >? size (mem w)); [discriminate|].
    destruct (cell (mem w) a) eqn:Ec; [|discriminate].
    intros H; inversion H; subst; cbn [mem stdin stdout size data].
    rewrite length_insert; repeat split; try congruence.
    intros b Hb; unfold cell in *; cbn [data].
    destruct (a <? 0) eqn:Eneg; [discriminate|]; apply Z.ltb_ge in Eneg.
    destruct (b <? 0) eqn:Eb; [reflexivity|]; apply Z.ltb_ge in Eb.
    apply list_lookup_insert_ne; intros E; apply Hb.
    apply Z2Nat.inj in E; lia.
Qed.

Lemma int_result_ret {S : Type} (v : Z) (s : S) (x : Z) (s' : S) :
  int_result v s = Ret x s' -> x = v /\ s' = s /\ INT_MIN <= v <= INT_MAX.
Proof.
  unfold int_result, in_int, ret, undefined.
  destruct ((INT_MIN <=? v) && (v <=? INT_MAX)) eqn:E; [|discriminate].
  apply andb_true_iff in E as [E1 E2]; apply Z.leb_le in E1, E2.
  intros H; inversion H; subst; repeat split; assumption.
Qed.

Lemma fetch_ret (r : cpu_t) (w : world) (r' : cpu_t) (w' : world) :
  fetch r w = Ret r' w' ->
  steps r' = steps r /\ done r' = done r /\ state r' = state r /\ ACC r' = ACC r /\
  PC r' = PC r + 1 /\
  mem w' = mem w /\ stdout w' = stdout w.
Proof.
  unfold fetch, bind.
  destruct (int_result (PC r + 1) w) as [pc w1|? ?|] eqn:E1; [|discriminate|discriminate].
  apply int_result_ret in E1 as [-> [-> _]].
  destruct (get (PC r) w) as [x w2|? ?|] eqn:E2; [|discriminate|discriminate].
  apply get_ret in E2 as [Hm [Ho _]].
  unfold ret; intros H; inversion H; subst; cbn.
  repeat split; assumption.
Qed.

(** What the execute phase keeps and what it can change. *)
Lemma execute_ret (r : cpu_t) (w : world) (r' : cpu_t) (w' : world) :
  execute r w = Ret r' w' ->
  steps r' = steps r /\
  same_extent (mem w) (mem w') /\
  (get_opcode (IR r) <> STO -> mem w' = mem w /\ stdout w' = stdout w) /\
  (get_opcode (IR r) = STO ->
     forall b, b <> get_operand (IR r) -> cell (mem w') b = cell (mem w) b) /\
  (done r' = true ->
     done r = true \/ get_opcode (IR r) = STP /\ IR r' = IR r /\ state r' = state r).
Proof.
  unfold execute, same_extent.
  destruct (Z.eqb_spec (get_opcode (IR r)) LDA) as [E0|E0].
  { unfold bind, ret.
    destruct (get (get_operand (IR r)) w) as [x w1|? ?|] eqn:G; try discriminate.
    apply get_ret in G as [Hm [Ho _]].
    unfold LDA, STO, STP in *.
    intros H; inversion H; subst; cbn; frame. }
  destruct (Z.eqb_spec (get_opcode (IR r)) STO) as [E1|E1].
  { unfold bind, ret.
    destruct (set (get_operand (IR r)) (ACC r) w) as [u w1|? ?|] eqn:G; try discriminate.
    apply set_ret in G as [[Hs Hl] [_ [_ [_ Hc]]]].
    unfold STO, STP in *.
    intros H; inversion H; subst; cbn; frame. }
  destruct (Z.eqb_spec (get_opcode (IR r)) ADD) as [E2|E2].
  { unfold bind, ret.
    destruct (get (get_operand (IR r)) w) as [x w1|? ?|] eqn:G; try discriminate.
    apply get_ret in G as [Hm [Ho _]].
    destruct (int_result (ACC r + x) w1) as [acc w2|? ?|] eqn:I; try discriminate.
    apply int_result_ret in I as [-> [-> _]].
    unfold ADD, STO, STP in *.
    intros H; inversion H; subst; cbn; frame. }
  destruct (Z.eqb_spec (get_opcode (IR r)) SUB) as [E3|E3].
  { unfold bind, ret.
    destruct (get (get_operand (IR r)) w) as [x w1|? ?|] eqn:G; try discriminate.
    apply get_ret in G as [Hm [Ho _]].
    destruct (int_result (ACC r - x) w1) as [acc w2|? ?|] eqn:I; try discriminate.
    apply int_result_ret in I as [-> [-> _]].
    unfold SUB, STO, STP in *.
    intros H; inversion H; subst; cbn; frame. }
  assert (J : fetch (with_PC r (get_operand (IR r))) w = Ret r' w' ->
              steps r' = steps r /\
              (size (mem w') = size (mem w) /\
               length (data (mem w')) = length (data (mem w))) /\
              (get_opcode (IR r) <> STO -> mem w' = mem w /\ stdout w' = stdout w) /\
              (get_opcode (IR r) = STO ->
                 forall b, b <> get_operand (IR r) -> cell (mem w') b = cell (mem w) b) /\
              (done r' = true ->
                 done r = true \/
                 get_opcode (IR r) = STP /\ IR r' = IR r /\ state r' = state r)).
  { intros F; apply fetch_ret in F as [Hs [Hd [_ [_ [_ [Hm Ho]]]]]]; cbn in Hs, Hd.
    frame. }
  destruct (get_opcode (IR r) =? JMP); [exact J|].
  destruct (get_opcode (IR r) =? JGE).
  { destruct (ACC r >=? 0); [exact J|].
    unfold ret; intros H; inversion H; subst; cbn; frame. }
  destruct (get_opcode (IR r) =? JNE).
  { destruct (negb (ACC r =? 0)); [exact J|].
    unfold ret; intros H; inversion H; subst; cbn; frame. }
  destruct (Z.eqb_spec (get_opcode (IR r)) STP) as [E7|E7].
  { unfold ret; intros H; inversion H; subst; cbn; frame. }
  unfold ret; intros H; inversion H; subst; frame.
Qed.

Lemma cycle_ret (r : cpu_t) (w : world) (r' : cpu_t) (w' : world) :
  cycle r w = Ret r' w' ->
  steps r' = steps r + 1 /\ steps r + 1 <= INT_MAX /\
  same_extent (mem w) (mem w') /\
  (state r = FETCH \/ get_opcode (IR r) <> STO -> mem w' = mem w /\ stdout w' = stdout w) /\
  (forall b, b <> get_operand (IR r) -> cell (mem w') b = cell (mem w) b) /\
  (done r = false -> done r' = true ->
     state r = EXECUTE /\ get_opcode (IR r) = STP /\ IR r' = IR r /\ state r' = EXECUTE).
Proof.
  unfold cycle, bind.
  destruct (int_result (steps r + 1) w) as [n w1|? ?|] eqn:I; try discriminate.
  apply int_result_ret in I as [-> [-> [_ Hn]]].
  cbn [state with_steps].
  destruct (state r) eqn:Es.
  - destruct (fetch (with_steps r (steps r + 1)) w) as [r1 w1|? ?|] eqn:F; try discriminate.
    apply fetch_ret in F as [Hs [Hd [_ [_ [_ [Hm Ho]]]]]]; cbn in Hs, Hd.
    unfold ret; intros H; inversion H; subst; cbn.
    rewrite Hm; unfold same_extent.
    split; [exact Hs|].
    split; [apply Hn|].
    frame.
  - intros E; apply execute_ret in E as [Hs [He [Hw [Hc Hd]]]]; cbn in Hs, Hw, Hc, Hd.
    split; [exact Hs|].
    split; [apply Hn|].
    split; [exact He|].
    split; [intros [F|N]; [discriminate|apply Hw; exact N]|].
    split.
    + intros b Hb.
      destruct (Z.eq_dec (get_opcode (IR r)) STO) as [S|S]; [apply Hc; assumption|].
      destruct (Hw S) as [-> _]; reflexivity.
    + intros D D'; destruct (Hd D') as [X|[X1 [X2 X3]]]; [congruence|].
      repeat split; congruence.
Qed.

Lemma get_exit (a : Z) (w : world) (status : Z) (w' : world) :
  get a w = Exit status w' -> status = 139 /\ w' = w.
Proof.
  unfold get.
  destruct (a =? IO_ADDRESS); [destruct (stdin w); discriminate|].
  destruct (to_unsigned a >? size (mem w)).
  - intros H; inversion H; split; reflexivity.
  - destruct (cell (mem w) a); discriminate.
Qed.

Lemma set_exit (a v : Z) (w : world) (status : Z) (w' : world) :
  set a v w = Exit status w' -> status = 139 /\ w' = w.
Proof.
  unfold set.
  destruct (a =? IO_ADDRESS); [discriminate|].
  destruct (to_unsigned a >? size (mem w)).
  - intros H; inversion H; split; reflexivity.
  - destruct (cell (mem w) a); discriminate.
Qed.

Lemma int_result_no_exit {S : Type} (v : Z) (s : S) (status : Z) (s' : S) :
  int_result v s <> Exit status s'.
Proof. unfold int_result, ret, undefined; destruct (in_int v); discriminate. Qed.

Lemma fetch_exit (r : cpu_t) (w : world) (status : Z) (w' : world) :
  fetch r w = Exit status w' -> status = 139 /\ w' = w.
Proof.
  unfold fetch, bind.
  destruct (int_result (PC r + 1) w) as [pc w1|? ?|] eqn:I;
    [|exfalso; exact (int_result_no_exit _ _ _ _ I)|discriminate].
  apply int_result_ret in I as [_ [-> _]].
  destruct (get (PC r) w) as [x w2|? ?|] eqn:G; [discriminate| |discriminate].
  apply get_exit in G as [-> ->]; intros H; inversion H; split; reflexivity.
Qed.

Lemma execute_exit (r : cpu_t) (w : world) (status : Z) (w' : world) :
  execute r w = Exit status w' -> status = 139 /\ w' = w.
Proof.
  unfold execute.
  assert (G : forall (k : Z -> M world cpu_t),
            (forall x w1, k x w1 <> Exit status w') ->
            bind (get (get_operand (IR r))) k w = Exit status w' ->
            status = 139 /\ w' = w).
  { intros k Hk; unfold bind.
    destruct (get (get_operand (IR r)) w) as [x w1|? ?|] eqn:E; [|  |discriminate].
    - intros H; exfalso; exact (Hk _ _ H).
    - apply get_exit in E as [-> ->]; intros H; inversion H; split; reflexivity. }
  destruct (get_opcode (IR r) =? LDA); [apply G; intros; discriminate|].
  destruct (get_opcode (IR r) =? STO).
  { unfold bind.
    destruct (set (get_operand (IR r)) (ACC r) w) as [u w1|? ?|] eqn:E; try discriminate.
    apply set_exit in E as [-> ->]; intros H; inversion H; split; reflexivity. }
  destruct (get_opcode (IR r) =? ADD).
  { apply G; intros x w1; unfold bind.
    destruct (int_result (ACC r + x) w1) as [? ?|? ?|] eqn:I; try discriminate.
    exfalso; exact (int_result_no_exit _ _ _ _ I). }
  destruct (get_opcode (IR r) =? SUB).
  { apply G; intros x w1; unfold bind.
    destruct (int_result (ACC r - x) w1) as [? ?|? ?|] eqn:I; try discriminate.
    exfalso; exact (int_result_no_exit _ _ _ _ I). }
  destruct (get_opcode (IR r) =? JMP); [apply fetch_exit|].
  destruct (get_opcode (IR r) =? JGE);
    [destruct (ACC r >=? 0); [apply fetch_exit|discriminate]|].
  destruct (get_opcode (IR r) =? JNE);
    [destruct (negb (ACC r =? 0)); [apply fetch_exit|discriminate]|].
  destruct (get_opcode (IR r) =? STP); discriminate.
Qed.

Lemma cycle_exit (r : cpu_t) (w : world) (status : Z) (w' : world) :
  cycle r w = Exit status w' -> status = 139 /\ w' = w.
Proof.
  unfold cycle, bind.
  destruct (int_result (steps r + 1) w) as [n w1|? ?|] eqn:I;
    [|exfalso; exact (int_result_no_exit _ _ _ _ I)|discriminate].
  apply int_result_ret in I as [_ [-> _]].
  cbn [state with_steps].
  destruct (state r).
  - destruct (fetch (with_steps r n) w) as [? ?|? ?|] eqn:F; try discriminate.
    apply fetch_exit in F as [-> ->]; intros H; inversion H; split; reflexivity.
  - apply execute_exit.
Qed.

Lemma emulate_loop_done (fuel : nat) (limit : Z) (r : cpu_t) (w : world) :
  done r = true -> emulate_loop fuel limit r w = Some (Ret r w).
Proof. intros D; destruct fuel; cbn [emulate_loop]; rewrite D; reflexivity. Qed.

(** X6: the step counter counts the iterations of the loop: each one that
    returns has added exactly one, in the fetch phase and in the execute
    phase alike, also for a jump that fetches its target in the same
    iteration. *)
Theorem cycle_counts_one_step (r : cpu_t) (w : world) (r' : cpu_t) (w' : world) :
  cycle r w = Ret r' w' -> steps r' = steps r + 1.
Proof. intros H; apply cycle_ret in H as [Hs _]; exact Hs. Qed.

Lemma cycle_counts_one_step_witness :
  steps (with_state (with_steps (at_jne 0) 3) FETCH) = steps (at_jne 0) + 1.
Proof.
  apply (cycle_counts_one_step (at_jne 0) five_world _ five_world); reflexivity.
Defined.

(** X7: a run never changes the extent of the memory: whenever the loop
    of [emulate] ends, by returning or through [exit], the memory has the
    size and the number of cells it started with. *)
Theorem run_keeps_memory_extent (fuel : nat) : forall (limit : Z) (r : cpu_t) (w : world)
    (o : outcome world cpu_t) (w' : world),
  emulate_loop fuel limit r w = Some o ->
  final_world o = Some w' ->
  same_extent (mem w) (mem w').
Proof.
  induction fuel as [|fuel IH]; intros limit r w o w'; cbn [emulate_loop];
    destruct (negb (done r) && ((limit <=? 0) || (steps r <? limit))).
  - discriminate.
  - intros H F; inversion H; subst; inversion F; subst; split; reflexivity.
  - destruct (cycle r w) as [r1 w1|status w1|] eqn:C.
    + intros H F.
      apply cycle_ret in C as [_ [_ [[Hs Hl] _]]].
      destruct (IH _ _ _ _ _ H F) as [Hs' Hl']; split; congruence.
    + apply cycle_exit in C as [-> ->].
      intros H F; inversion H; subst; inversion F; subst; split; reflexivity.
    + intros H F; inversion H; subst; discriminate.
  - intros H F; inversion H; subst; inversion F; subst; split; reflexivity.
Qed.

Lemma run_keeps_memory_extent_witness :
  same_extent (mem five_world) five_memory.
Proof.
  apply (run_keeps_memory_extent 4 0 reset five_world
           (Ret {| PC := 2; ACC := 5; IR := 0x7000; state := EXECUTE;
                   done := true; steps := 4 |} five_world) five_world);
    reflexivity.
Defined.

(** X8: only [STO] writes.  An iteration in the fetch phase, or in the
    execute phase of any other opcode, leaves the memory and the console
    output as they are; an iteration of [STO] leaves every cell other
    than the one at its operand as it is. *)
Theorem only_sto_writes (r : cpu_t) (w : world) (r' : cpu_t) (w' : world) :
  cycle r w = Ret r' w' ->
  (state r = FETCH \/ get_opcode (IR r) <> STO ->
   mem w' = mem w /\ stdout w' = stdout w) /\
  (forall b, b <> get_operand (IR r) -> cell (mem w') b = cell (mem w) b).
Proof.
  intros H; apply cycle_ret in H as [_ [_ [_ [A [B _]]]]]; split; assumption.
Qed.

Lemma only_sto_writes_witness :
  mem five_world = mem five_world /\ stdout five_world = stdout five_world.
Proof.
  apply (only_sto_writes (at_jne 0) five_world
           (with_state (with_steps (at_jne 0) 3) FETCH) five_world);
    [reflexivity|right; discriminate].
Defined.

Lemma emulate_loop_within_limit (fuel : nat) : forall (limit : Z) (r : cpu_t) (w : world),
  0 < limit -> steps r <= limit -> limit - steps r <= Z.of_nat fuel ->
  exists o,
    emulate_loop fuel limit r w = Some o /\
    forall r' w', o = Ret r' w' ->
      steps r' <= limit /\ (done r' = false -> steps r' = limit).
Proof.
  induction fuel as [|fuel IH]; intros limit r w Hl Hs Hf; cbn [emulate_loop];
    destruct (negb (done r) && ((limit <=? 0) || (steps r <? limit))) eqn:E.
  - apply andb_true_iff in E as [_ E]; apply orb_true_iff in E as [E|E];
      [apply Z.leb_le in E|apply Z.ltb_lt in E]; lia.
  - eexists; split; [reflexivity|].
    intros r' w' H; inversion H; subst; split; [exact Hs|].
    intros D; rewrite D in E; cbn [negb andb] in E.
    apply orb_false_iff in E as [_ E]; apply Z.ltb_ge in E; lia.
  - apply andb_true_iff in E as [_ E]; apply orb_true_iff in E as [E|E];
      [apply Z.leb_le in E; lia|apply Z.ltb_lt in E].
    destruct (cycle r w) as [r1 w1|status w1|] eqn:C.
    + apply cycle_ret in C as [C _].
      apply IH; lia.
    + eexists; split; [reflexivity|]; intros r' w' H; discriminate.
    + eexists; split; [reflexivity|]; intros r' w' H; discriminate.
  - eexists; split; [reflexivity|].
    intros r' w' H; inversion H; subst; split; [exact Hs|].
    intros D; rewrite D in E; cbn [negb andb] in E.
    apply orb_false_iff in E as [_ E]; apply Z.ltb_ge in E; lia.
Qed.

(** X9: with a positive step limit the emulation always ends, within
    [limit] iterations of the loop: it halts on [STP], ends in a fault, or
    stops at the limit.  When it returns, the step counter is at most
    [limit], and equal to [limit] if no [STP] was executed. *)
Theorem limited_run_ends (m : memory_t) (limit : Z) (input : string) :
  0 < limit ->
  exists o,
    emulate (Z.to_nat limit) m limit input = Some o /\
    forall r w, o = Ret r w ->
      steps r <= limit /\ (done r = false -> steps r = limit).
Proof.
  intros H; unfold emulate.
  apply emulate_loop_within_limit; cbn [steps reset]; lia.
Qed.

Lemma limited_run_ends_witness :
  exists o,
    emulate (Z.to_nat 3) five_memory 3 EmptyString = Some o /\
    forall r w, o = Ret r w ->
      steps r <= 3 /\ (done r = false -> steps r = 3).
Proof. apply (limited_run_ends five_memory 3 EmptyString); reflexivity. Defined.

Lemma emulate_loop_unlimited (fuel : nat) : forall (limit : Z) (r : cpu_t) (w : world)
    (r' : cpu_t) (w' : world),
  limit <= 0 ->
  emulate_loop fuel limit r w = Some (Ret r' w') ->
  done r' = true /\
  (done r = false -> get_opcode (IR r') = STP /\ state r' = EXECUTE).
Proof.
  induction fuel as [|fuel IH]; intros limit r w r' w' Hl; cbn [emulate_loop];
    replace (limit <=? 0) with true by (symmetry; apply Z.leb_le; exact Hl);
    rewrite orb_true_l, andb_true_r;
    destruct (done r) eqn:D; cbn [negb]; try discriminate.
  - intros H; inversion H; subst; split; [exact D|discriminate].
  - intros H; inversion H; subst; split; [exact D|discriminate].
  - destruct (cycle r w) as [r1 w1|status w1|] eqn:C; try discriminate.
    intros H; destruct (IH _ _ _ _ _ Hl H) as [D' N]; split; [exact D'|].
    intros _.
    destruct (done r1) eqn:D1; [|apply N; reflexivity].
    rewrite emulate_loop_done in H by exact D1; inversion H; subst.
    apply cycle_ret in C as [_ [_ [_ [_ [_ S]]]]].
    destruct (S D D1) as [_ [S1 [S2 S3]]]; split; congruence.
Qed.

(** X10: with no step limit (a limit of 0 or less) the emulation returns
    only by executing [STP]: in every result the flag [done] is set, the
    instruction register holds a word with opcode [STP] and the state is
    [EXECUTE]. *)
Theorem unlimited_run_ends_on_stp (fuel : nat) (m : memory_t) (limit : Z) (input : string)
    (r : cpu_t) (w : world) :
  limit <= 0 ->
  emulate fuel m limit input = Some (Ret r w) ->
  done r = true /\ get_opcode (IR r) = STP /\ state r = EXECUTE.
Proof.
  unfold emulate; intros Hl H.
  destruct (emulate_loop_unlimited _ _ _ _ _ _ Hl H) as [D N].
  destruct (N eq_refl) as [N1 N2]; repeat split; assumption.
Qed.

Lemma unlimited_run_ends_on_stp_witness :
  done {| PC := 2; ACC := 5; IR := 0x7000; state := EXECUTE; done := true; steps := 4 |}
    = true /\
  get_opcode 0x7000 = STP /\ EXECUTE = EXECUTE.
Proof.
  apply (unlimited_run_ends_on_stp 4 five_memory 0 EmptyString
           {| PC := 2; ACC := 5; IR := 0x7000; state := EXECUTE; done := true; steps := 4 |}
           five_world); [discriminate|reflexivity].
Defined.

Lemma execute_unknown_opcode (r : cpu_t) (w : world) :
  get_opcode (IR r) < 0 \/ 7 < get_opcode (IR r) -> execute r w = Ret r w.
Proof.
  intros H; unfold execute, LDA, STO, ADD, SUB, JMP, JGE, JNE, STP.
  repeat match goal with
    | |- context [get_opcode (IR r) =? ?k] =>
        destruct (Z.eqb_spec (get_opcode (IR r)) k); [lia|]
    end.
  reflexivity.
Qed.

Lemma emulate_loop_spins (fuel : nat) : forall (r : cpu_t) (w : world),
  state r = EXECUTE -> done r = false ->
  get_opcode (IR r) < 0 \/ 7 < get_opcode (IR r) ->
  0 <= steps r -> steps r + Z.of_nat fuel <= INT_MAX ->
  emulate_loop fuel 0 r w = None.
Proof.
  induction fuel as [|fuel IH]; intros r w Hs Hd Ho H0 Hf; cbn [emulate_loop];
    rewrite Hd; cbn [negb andb orb Z.leb Z.compare]; [reflexivity|].
  assert (C : cycle r w = Ret (with_steps r (steps r + 1)) w).
  { unfold cycle, bind, int_result, in_int, ret.
    replace ((INT_MIN <=? steps r + 1) && (steps r + 1 <=? INT_MAX)) with true.
    - cbn [state with_steps]; rewrite Hs.
      apply execute_unknown_opcode; exact Ho.
    - symmetry; apply andb_true_iff; unfold INT_MIN, INT_MAX in *.
      split; apply Z.leb_le; lia. }
  rewrite C; apply IH; cbn; try assumption; lia.
Qed.

Lemma first_cycle (m : memory_t) (x : Z) (input : string) :
  data m !! 0%nat = Some x -> 0 <= size m ->
  cycle reset {| mem := m; stdin := input; stdout := EmptyString |}
    = Ret {| PC := 1; ACC := 0; IR := to_int x; state := EXECUTE;
             done := false; steps := 1 |}
          {| mem := m; stdin := input; stdout := EmptyString |}.
Proof.
  intros Hx Hs.
  unfold cycle, bind, fetch, bind, get, cell.
  cbn -[lookup to_int to_unsigned Z.gtb int_result].
  unfold int_result; change (in_int (0 + 1)) with true.
  cbn -[lookup to_int to_unsigned Z.gtb].
  replace (to_unsigned 0 >? size m) with false
    by (symmetry; rewrite Z.gtb_ltb; apply Z.ltb_ge; exact Hs).
  change (Z.to_nat 0) with 0%nat; rewrite Hx; reflexivity.
Qed.

(** X11: a word whose opcode is none of the eight is never left: the
    [switch] has no case for it and the loop goes on in the execute phase
    with the same registers.  So a memory whose first word is 0x8000 or
    more makes the emulator, run with no step limit, go on for as long
    as the step counter can count. *)
Theorem unknown_opcode_never_halts (fuel : nat) (m : memory_t) (x : Z) (input : string) :
  data m !! 0%nat = Some x ->
  0 <= size m ->
  32768 <= x < 2 ^ 32 ->
  Z.of_nat fuel <= INT_MAX ->
  emulate fuel m 0 input = None.
Proof.
  intros Hx Hs Hr Hf; unfold emulate.
  destruct fuel as [|fuel]; [reflexivity|].
  cbn [emulate_loop reset done negb andb orb Z.leb Z.compare].
  rewrite (first_cycle m x input Hx Hs); apply emulate_loop_spins; cbn; try reflexivity; try lia.
  right; unfold get_opcode; rewrite Z.shiftr_div_pow2 by lia.
  change (2 ^ 12) with 4096; unfold to_unsigned, to_int.
  destruct (Z.lt_ge_cases x (2 ^ 31)) as [L|G].
  - rewrite (Z.mod_small (x + 2 ^ 31)) by lia.
    replace (x + 2 ^ 31 - 2 ^ 31) with x by lia.
    assert (8 <= x / 4096) by (apply Z.div_le_lower_bound; lia).
    assert (x / 4096 < 2 ^ 32) by (apply Z.div_lt_upper_bound; lia).
    rewrite Z.mod_small by lia; lia.
  - replace ((x + 2 ^ 31) mod 2 ^ 32) with (x - 2 ^ 31)
      by (apply Z.mod_unique with 1; lia).
    assert (- 2 ^ 31 <= (x - 2 ^ 31 - 2 ^ 31) / 4096)
      by (apply Z.div_le_lower_bound; lia).
    assert ((x - 2 ^ 31 - 2 ^ 31) / 4096 < 0) by (apply Z.div_lt_upper_bound; lia).
    replace (((x - 2 ^ 31 - 2 ^ 31) / 4096) mod 2 ^ 32)
      with ((x - 2 ^ 31 - 2 ^ 31) / 4096 + 2 ^ 32)
      by (apply Z.mod_unique with (-1); lia).
    lia.
Qed.

Lemma unknown_opcode_never_halts_witness :
  emulate 1000 {| size := 1; data := [0x8000] |} 0 EmptyString = None.
Proof.
  apply (unknown_opcode_never_halts 1000 {| size := 1; data := [0x8000] |} 0x8000
           EmptyString).
  - reflexivity.
  - discriminate.
  - split; [discriminate|reflexivity].
  - discriminate.
Defined.

(** X12: a program whose first word is [LDA 0xFFF] reads a character:
    whatever else the memory holds, after its first two iterations (run
    here with a step limit of 2) the accumulator holds the code of the
    first character of the console input, that character is consumed and
    the memory is as it was. *)
Theorem lda_reads_console (k : nat) (m : memory_t) (c : ascii) (rest : string) :
  data m !! 0%nat = Some 4095 ->
  0 <= size m ->
  emulate (2 + k) m 2 (String c rest) =
    Some (Ret {| PC := 1; ACC := int_of_char c; IR := 4095; state := FETCH;
                 done := false; steps := 2 |}
              {| mem := m; stdin := rest; stdout := EmptyString |}).
Proof.
  intros Hx Hs; unfold emulate.
  apply emulate_loop_more.
  cbn [emulate_loop reset done steps negb andb orb].
  change ((2 <=? 0) || (0 <? 2)) with true; cbv iota.
  rewrite (first_cycle m 4095 (String c rest) Hx Hs).
  change (to_int 4095) with 4095; cbn [done steps negb andb].
  change ((2 <=? 0) || (1 <? 2)) with true; cbv iota.
  reflexivity.
Qed.

Lemma lda_reads_console_witness :
  emulate 2 {| size := 2; data := [4095; 0x7000] |} 2 "A" =
    Some (Ret {| PC := 1; ACC := 65; IR := 4095; state := FETCH;
                 done := false; steps := 2 |}
              {| mem := {| size := 2; data := [4095; 0x7000] |}; stdin := "";
                 stdout := "" |}).
Proof.
  apply (lda_reads_console 0 {| size := 2; data := [4095; 0x7000] |} "A"%char "");
    [reflexivity|discriminate].
Defined.

(** X13: in a memory of [size] cells, [size] below 2^31, an access at an
    [int] address other than 0xFFF goes as follows: inside [0, size)
    [get] returns the cell, converted to [int], and changes nothing;
    below 0 or above [size] both [get] and [set] end the process with
    status 139, nothing changed. *)
Theorem memory_access_by_range (w : world) (a : Z) :
  well_formed (mem w) -> size (mem w) < 2 ^ 31 ->
  INT_MIN <= a <= INT_MAX -> a <> IO_ADDRESS ->
  (0 <= a < size (mem w) ->
   exists x, data (mem w) !! Z.to_nat a = Some x /\ get a w = Ret (to_int x) w) /\
  (a < 0 \/ size (mem w) < a ->
   get a w = Exit 139 w /\ forall v, set a v w = Exit 139 w).
Proof.
  intros [Hs _] Hb Ha Hio; unfold INT_MIN, INT_MAX in Ha; split.
  - intros Hr.
    destruct (cell_in_range (mem w) a) as [x Hx]; [lia|].
    exists x; unfold get, cell in *.
    destruct (Z.eqb_spec a IO_ADDRESS) as [E|_]; [contradiction|].
    rewrite to_unsigned_small by lia.
    replace (a >? size (mem w)) with false
      by (symmetry; rewrite Z.gtb_ltb; apply Z.ltb_ge; lia).
    replace (a <? 0) with false in * by (symmetry; apply Z.ltb_ge; lia).
    rewrite Hx; split; reflexivity.
  - intros Hr.
    assert (U : size (mem w) < to_unsigned a).
    { unfold to_unsigned; destruct Hr as [N|P].
      - replace (a mod 2 ^ 32) with (a + 2 ^ 32);
          [lia|apply Z.mod_unique with (-1); lia].
      - rewrite Z.mod_small by lia; exact P. }
    split; [|intros v]; apply (beyond_size_is_fatal w a 0 Hio U) ||
                         apply (beyond_size_is_fatal w a v Hio U).
Qed.

Lemma memory_access_by_range_witness :
  (exists x, data five_memory !! Z.to_nat 2 = Some x /\ get 2 five_world = Ret (to_int x) five_world) /\
  get (-1) five_world = Exit 139 five_world.
Proof.
  split.
  - apply (memory_access_by_range five_world 2);
      [split; [reflexivity|vm_compute; reflexivity]|vm_compute; reflexivity
      |vm_compute; split; discriminate|discriminate
      |vm_compute; split; [discriminate|reflexivity]].
  - apply (memory_access_by_range five_world (-1));
      [split; [reflexivity|vm_compute; reflexivity]|vm_compute; reflexivity
      |vm_compute; split; discriminate|discriminate
      |left; reflexivity].
Defined.

(** X14: a jump costs one iteration and its target's fetch none: an
    iteration in the execute phase of [JMP], with the operand inside the
    memory, leaves [PC] one past the operand, [IR] holding the word at the
    operand and the state still [EXECUTE], so that the next iteration
    executes that word. *)
Theorem jmp_folds_fetch (r : cpu_t) (w : world) (x : Z) :
  state r = EXECUTE ->
  get_opcode (IR r) = JMP ->
  get_operand (IR r) <> IO_ADDRESS ->
  get_operand (IR r) <= size (mem w) ->
  cell (mem w) (get_operand (IR r)) = Some x ->
  0 <= steps r < INT_MAX ->
  cycle r w =
    Ret {| PC := get_operand (IR r) + 1; ACC := ACC r; IR := to_int x;
           state := EXECUTE; done := done r; steps := steps r + 1 |} w.
Proof.
  intros Hs Hop Hio Hsz Hx Hst.
  unfold cycle, bind, int_result, in_int, ret.
  replace ((INT_MIN <=? steps r + 1) && (steps r + 1 <=? INT_MAX)) with true
    by (symmetry; apply andb_true_iff; unfold INT_MIN, INT_MAX in *;
        split; apply Z.leb_le; lia).
  cbn [state with_steps]; rewrite Hs.
  unfold execute; cbn [IR with_steps]; rewrite Hop.
  cbn [Z.eqb JMP LDA STO ADD SUB Pos.eqb].
  change (fetch (with_PC (with_steps r (steps r + 1)) (get_operand (IR r))) w)
    with (jump_and_fetch (with_steps r (steps r + 1)) w).
  rewrite (jump_and_fetch_in_memory (with_steps r (steps r + 1)) w x Hio Hsz Hx).
  cbn [PC ACC IR state done steps with_steps]; rewrite Hs; reflexivity.
Qed.

Lemma jmp_folds_fetch_witness :
  cycle {| PC := 1; ACC := 9; IR := 0x4002; state := EXECUTE; done := false; steps := 2 |}
    five_world
  = Ret {| PC := 3; ACC := 9; IR := 5; state := EXECUTE; done := false; steps := 3 |}
      five_world.
Proof.
  apply (jmp_folds_fetch
           {| PC := 1; ACC := 9; IR := 0x4002; state := EXECUTE; done := false;
              steps := 2 |} five_world 5);
    try reflexivity; try discriminate.
  vm_compute; split; [discriminate|reflexivity].
Defined.

(** ** Further properties of words and lines *)

(** X15: decoding splits a word and encoding joins it again.  The opcode
    of a word is an unsigned value in [0, 2^32) and the operand lies in
    [0, 4095].  A non-negative [int] is its opcode times 4096 plus its
    operand; a negative one is its opcode less [2^32], times 4096, plus
    its operand, and its opcode is at least [2^32 - 2^19], hence none of
    the eight instructions.  A 16-bit word has an opcode in [0, 15], and
    the opcode and operand of [i * 4096 + n] are [i] and [n] when
    [0 <= i < 2^19] and [0 <= n < 4096]. *)
Theorem word_fields (x i n : Z) :
  0 <= get_opcode x < 2 ^ 32 /\
  0 <= get_operand x <= 4095 /\
  (0 <= x <= INT_MAX -> x = get_opcode x * 4096 + get_operand x) /\
  (INT_MIN <= x < 0 ->
     x = (get_opcode x - 2 ^ 32) * 4096 + get_operand x /\
     2 ^ 32 - 2 ^ 19 <= get_opcode x) /\
  (0 <= x < 65536 -> 0 <= get_opcode x <= 15) /\
  (0 <= i < 2 ^ 19 -> 0 <= n < 4096 ->
     get_opcode (i * 4096 + n) = i /\ get_operand (i * 4096 + n) = n).
Proof.
  assert (D : x = Z.shiftr x 12 * 4096 + get_operand x).
  { unfold get_operand; rewrite Z.shiftr_div_pow2 by lia.
    change 4095 with (Z.ones 12); rewrite Z.land_ones by lia.
    change (2 ^ 12) with 4096.
    pose proof (Z.div_mod x 4096); lia. }
  pose proof (get_operand_range x) as R.
  split; [|split; [|split; [|split; [|split]]]].
  - unfold get_opcode, to_unsigned; apply Z.mod_pos_bound; lia.
  - exact R.
  - unfold INT_MAX; intros Hx; unfold get_opcode.
    rewrite to_unsigned_small; [exact D|].
    rewrite Z.shiftr_div_pow2 by lia; change (2 ^ 12) with 4096.
    split; [apply Z.div_pos; lia|apply Z.div_lt_upper_bound; lia].
  - unfold INT_MIN; intros Hx.
    assert (B : - 2 ^ 19 <= Z.shiftr x 12 < 0).
    { rewrite Z.shiftr_div_pow2 by lia; change (2 ^ 12) with 4096.
      split; [apply Z.div_le_lower_bound; lia|apply Z.div_lt_upper_bound; lia]. }
    assert (E : get_opcode x = Z.shiftr x 12 + 2 ^ 32).
    { unfold get_opcode, to_unsigned; symmetry.
      apply Z.mod_unique with (-1); lia. }
    rewrite E; split; lia.
  - intros Hx; unfold get_opcode.
    rewrite Z.shiftr_div_pow2 by lia; change (2 ^ 12) with 4096.
    assert (0 <= x / 4096) by (apply Z.div_pos; lia).
    assert (x / 4096 < 16) by (apply Z.div_lt_upper_bound; lia).
    rewrite to_unsigned_small by lia; lia.
  - intros Hi Hn; destruct (decode_word i n) as [A [B _]]; [lia|exact Hn|].
    split; assumption.
Qed.

Lemma word_fields_witness :
  (0x7abc = get_opcode 0x7abc * 4096 + get_operand 0x7abc) /\
  (0 <= get_opcode 0x7abc <= 15) /\
  (get_opcode (7 * 4096 + 0xabc) = 7 /\ get_operand (7 * 4096 + 0xabc) = 0xabc) /\
  (-1 = (get_opcode (-1) - 2 ^ 32) * 4096 + get_operand (-1) /\
   2 ^ 32 - 2 ^ 19 <= get_opcode (-1)).
Proof.
  destruct (word_fields 0x7abc 7 0xabc) as (_ & _ & A & _ & B & C).
  destruct (word_fields (-1) 0 0) as (_ & _ & _ & D & _).
  split; [apply A; vm_compute; split; discriminate|].
  split; [apply B; vm_compute; split; [discriminate|reflexivity]|].
  split; [apply C; vm_compute; split; solve [discriminate|reflexivity]|].
  apply D; vm_compute; split; [discriminate|reflexivity].
Defined.

(** The opcode of the word [-1] is the largest [unsigned int]. *)
Example opcode_of_minus_one : get_opcode (-1) = 4294967295.
Proof. reflexivity. Qed.

Lemma fgets_chars_spec (n : nat) : forall (s line rest : string),
  fgets_chars n s = (line, rest) ->
  s = (line ++ rest)%string /\ (String.length line <= n)%nat.
Proof.
  induction n as [|n IH]; intros s line rest H.
  - destruct s; inversion H; subst; split; reflexivity || (simpl; lia).
  - destruct s as [|c s]; cbn [fgets_chars] in H.
    + inversion H; subst; split; [reflexivity|simpl; lia].
    + destruct (code c =? 10).
      * inversion H; subst; split; [reflexivity|simpl; lia].
      * destruct (fgets_chars n s) as [l r] eqn:E.
        inversion H; subst.
        destruct (IH _ _ _ E) as [-> L]; split; [reflexivity|simpl; lia].
Qed.

Lemma c_str_length (s : string) : (String.length (c_str s) <= String.length s)%nat.
Proof.
  induction s as [|c s IH]; [reflexivity|].
  cbn [c_str]; destruct (code c =? 0); simpl; lia.
Qed.

Lemma c_str_no_nul (s : string) : no_nul s = true -> c_str s = s.
Proof.
  induction s as [|c s IH]; [reflexivity|].
  cbn [no_nul c_str]; intros H; apply andb_true_iff in H as [Hc Hs].
  apply negb_true_iff in Hc; rewrite Hc, IH by assumption; reflexivity.
Qed.

Lemma no_nul_app (s t : string) : no_nul (s ++ t) = no_nul s && no_nul t.
Proof.
  induction s as [|c s IH]; [reflexivity|].
  cbn [no_nul append]; rewrite IH, andb_assoc; reflexivity.
Qed.

Lemma fgets_spec (fin line rest : string) :
  fgets LINE_SIZE fin = Some (line, rest) ->
  fin = (line ++ rest)%string /\ (1 <= String.length line <= 89)%nat.
Proof.
  intros H.
  pose proof (fgets_shrinks _ _ _ H) as P.
  destruct fin as [|c s]; [discriminate|].
  assert (E : fgets_chars 89 (String c s) = (line, rest))
    by (apply (f_equal (fun o => match o with
                                 | Some p => p
                                 | None => (EmptyString, EmptyString)
                                 end)) in H; exact H).
  pose proof (fgets_chars_length _ _ _ _ E) as Q.
  apply fgets_chars_spec in E as [E L].
  split; [exact E|lia].
Qed.

Lemma file_lines_spec (n : nat) : forall fin : string,
  String.length fin = n ->
  Forall (fun l => (String.length l <= 89)%nat) (file_lines fin) /\
  (no_nul fin = true ->
   fold_right append EmptyString (file_lines fin) = fin /\
   Forall (fun l => l <> EmptyString) (file_lines fin)).
Proof.
  induction n as [n IH] using lt_wf_ind; intros fin Hn.
  rewrite file_lines_unfold.
  destruct (fgets LINE_SIZE fin) as [[line rest]|] eqn:E.
  - pose proof (fgets_shrinks _ _ _ E) as L.
    destruct (IH (String.length rest)) with (fin := rest) as [B C]; [lia|reflexivity|].
    apply fgets_spec in E as [E Hl].
    split.
    + constructor; [pose proof (c_str_length line); lia|exact B].
    + intros N; rewrite E, no_nul_app in N; apply andb_true_iff in N as [N1 N2].
      destruct (C N2) as [C1 C2].
      rewrite c_str_no_nul by exact N1; cbn [fold_right]; rewrite C1.
      split; [symmetry; exact E|].
      constructor; [|exact C2].
      intros ->; cbn [String.length] in Hl; lia.
  - destruct fin; [|discriminate].
    split; [constructor|intros _; split; [reflexivity|constructor]].
Qed.

(** X16: the lines that the two passes see hold at most 89 characters
    each, a longer line of the file being cut into several; and for a
    file without NUL characters they are not empty and, put end to end,
    are the file: no character is dropped and none is seen twice. *)
Theorem file_lines_cut_the_file (fin : string) :
  Forall (fun l => (String.length l <= 89)%nat) (file_lines fin) /\
  (no_nul fin = true ->
   fold_right append EmptyString (file_lines fin) = fin /\
   Forall (fun l => l <> EmptyString) (file_lines fin)).
Proof. apply (file_lines_spec (String.length fin)); reflexivity. Qed.

Lemma file_lines_cut_the_file_witness :
  fold_right append EmptyString (file_lines five_program) = five_program /\
  Forall (fun l => l <> EmptyString) (file_lines five_program).
Proof. apply (file_lines_cut_the_file five_program); reflexivity. Defined.

(** ** Properties of the command line *)

Lemma step_limit_absent {S : Type} (argv : list string) (s : S) :
  Forall (fun arg => arg <> "-l") argv -> step_limit argv s = Ret 0 s.
Proof.
  induction 1 as [|arg rest Ha _ IH]; [reflexivity|].
  cbn [step_limit]; unfold strcmp_eq.
  destruct (String.eqb_spec arg "-l") as [E|_]; [contradiction|exact IH].
Qed.

Lemma step_limit_first {S : Type} (pre rest : list string) (s : S) :
  Forall (fun arg => arg <> "-l") pre ->
  step_limit (pre ++ "-l" :: rest)%list s
    = match rest with
      | next :: _ => Ret (to_int (strtol next)) s
      | [] => Exit 1 s
      end.
Proof.
  induction 1 as [|arg pre Ha _ IH].
  - cbn [app step_limit]; unfold strcmp_eq; cbn [String.eqb Ascii.eqb Bool.eqb].
    destruct rest; reflexivity.
  - cbn [app step_limit]; unfold strcmp_eq.
    destruct (String.eqb_spec arg "-l") as [E|_]; [contradiction|exact IH].
Qed.

(** X17: [step_limit] looks at every argument, the program name and the
    file names included.  Without an argument [-l] it returns 0; at the
    first [-l] it returns the number that the argument after it parses
    to, as [strtol] with base 0 does, converted to [int]; and when the
    first [-l] is the last argument it ends the process with status 1. *)
Theorem step_limit_cases (S : Type) (pre post : list string) (next : string) (s : S) :
  Forall (fun arg => arg <> "-l") pre ->
  step_limit pre s = Ret 0 s /\
  step_limit (pre ++ "-l" :: next :: post)%list s = Ret (to_int (strtol next)) s /\
  step_limit (pre ++ ["-l"])%list s = Exit 1 s.
Proof.
  intros H; split; [apply step_limit_absent; exact H|].
  split; [apply (step_limit_first pre (next :: post) s H)|].
  apply (step_limit_first pre [] s H).
Qed.

Lemma step_limit_cases_witness :
  step_limit ["mu0"; "emulate"; "code"] tt = Ret 0 tt /\
  step_limit (["mu0"; "emulate"; "code"] ++ ["-l"; "0x10"; "-v"])%list tt = Ret 16 tt /\
  step_limit (["mu0"; "emulate"; "code"] ++ ["-l"])%list tt = Exit 1 tt.
Proof.
  apply (step_limit_cases unit ["mu0"; "emulate"; "code"] ["-v"] "0x10" tt).
  repeat constructor; discriminate.
Defined.

(** X18: when the first [-l] on the command line is its last argument,
    [main] ends with status 1 whatever the command is, also for
    [assemble], which has no use for a limit, and before any file is
    opened: the files and the console are as they were. *)
Theorem main_dangling_limit (addr_s : nat -> string) (label0 : string) (fuel : nat)
    (pre : list string) (os : os_t) :
  Forall (fun arg => arg <> "-l") pre ->
  (2 <= length pre)%nat ->
  main addr_s label0 fuel (pre ++ ["-l"])%list os = Some (Exit 1 os).
Proof.
  intros H L; unfold main.
  replace (length (pre ++ ["-l"]) <? 3)%nat with false
    by (symmetry; apply Nat.ltb_ge; rewrite length_app; simpl; lia).
  rewrite (step_limit_first pre [] os H); reflexivity.
Qed.

Lemma main_dangling_limit_witness :
  main (fun _ => "") "" 0 (["mu0"; "assemble"; "a.s"; "a.out"] ++ ["-l"])%list
    {| files := fun _ => None; console_in := ""; console_out := "" |}
  = Some (Exit 1 {| files := fun _ => None; console_in := ""; console_out := "" |}).
Proof.
  apply (main_dangling_limit (fun _ => "") "" 0 ["mu0"; "assemble"; "a.s"; "a.out"]).
  - repeat constructor; discriminate.
  - simpl; lia.
Defined.



(** The words of [five_program_explicit], once in the file, run to the
    end through [main]: the run returns 0 and leaves the files and the
    console as they were. *)
Example five_explicit_through_main (addr_s : nat -> string) (label0 : string) :
  main addr_s label0 4 ["mu0"; "emulate"; "five.mc"]
    (write_file "five.mc" (file_text ["0002"; "7000"; "0005"])
       {| files := fun _ => None; console_in := ""; console_out := "" |})
  = Some (Ret 0 (write_file "five.mc" (file_text ["0002"; "7000"; "0005"])
                   {| files := fun _ => None; console_in := ""; console_out := "" |})).
Proof. vm_compute; reflexivity. Qed.

(** X20: the loader builds a memory that is as long as it says: when the
    file holds fewer than 2^32 numbers, [size] is the count that
    [mem_size] returns and the array has exactly [size] cells, each
    filled by the second reading of the file. *)
Theorem loader_memory_is_well_formed (fin : string) :
  mem_size fin < 2 ^ 32 ->
  well_formed (read_machine_code fin) /\
  size (read_machine_code fin) = mem_size fin /\
  0 <= mem_size fin.
Proof.
  intros H.
  pose proof (read_machine_code_well_formed fin H) as W.
  destruct (read_cells_length (String.length fin) fin 0) as [k [Hk _]].
  fold (mem_size fin) in Hk.
  split; [exact W|].
  unfold read_machine_code; cbn [size].
  rewrite to_unsigned_small by lia; split; [reflexivity|lia].
Qed.

Lemma loader_memory_is_well_formed_witness :
  well_formed (read_machine_code (file_text ["0002"; "7000"; "0005"])) /\
  size (read_machine_code (file_text ["0002"; "7000"; "0005"]))
    = mem_size (file_text ["0002"; "7000"; "0005"]) /\
  0 <= mem_size (file_text ["0002"; "7000"; "0005"]).
Proof.
  apply (loader_memory_is_well_formed (file_text ["0002"; "7000"; "0005"])).
  vm_compute; reflexivity.
Defined.
